(** * session_count.py: the event stream builder and the occupancy sweep

    A shallow embedding of [get_event_list] and
    [write_session_count_csv_file] of [session_count.py], and the
    properties of the event stream and of the sweep proved on it; then of
    [get_user_dict] and of [main], with the listing of the directory and the
    readers of the two input files as parameters.

    Conventions of the embedding:
    - Python [int] is [Z]; Python [str] is [string], read as the UTF-8 bytes
      of the text (byte-wise lexicographic order on UTF-8 is code point
      order, which is how Python compares [str]);
    - a [dict] keyed by strings is a [gmap string _];
    - a raised exception is the [Raise] branch of [result];
    - the rows produced by [csv.reader] are the input ([list (list string)]);
      the rows written to the output file are the output, each as the triple
      of its date-time, its count and its users text, the text of the
      date-time being left to [str];
    - [datetime.fromisoformat] is a parameter of the builder; the date-times
      are naive (no offset), as the text is cut at its first [+]. *)

From stdpp Require Import gmap strings list fin_maps sorting pretty.
From Stdlib Require Import ZArith Lia Ascii.

Open Scope Z_scope.

(** ** Exceptions and fallible computations *)

Inductive exn : Type :=
| KeyError (key : string)
| ValueError (text : string)
| AttributeError (attr : string)
| IndexError.

Inductive result (A : Type) : Type :=
| Ok (a : A)
| Raise (e : exn).

Arguments Ok {A} a.
Arguments Raise {A} e.

(** Sequencing stops at the first exception; [x ← r; k] is stdpp's notation
    for [mbind]. *)
Global Instance result_ret : MRet result := λ A a, Ok a.
Global Instance result_bind : MBind result := λ A B k r,
  match r with
  | Ok a => k a
  | Raise e => Raise e
  end.

(** [d[k]] on a dictionary: [KeyError] when the key is absent. *)
Definition getitem {V : Type} (d : gmap string V) (k : string) : result V :=
  match d !! k with
  | Some v => Ok v
  | None => Raise (KeyError k)
  end.

(** [d.get(k, dflt)]. *)
Definition dict_get {V : Type} (d : gmap string V) (k : string) (dflt : V) : V :=
  default dflt (d !! k).

(** [dict(pairs)]: later pairs overwrite earlier ones. *)
Definition dict {V : Type} (pairs : list (string * V)) : gmap string V :=
  foldl (λ d kv, <[kv.1 := kv.2]> d) ∅ pairs.

(** ** Python's [<] and [sorted] *)

Class PyOrd (A : Type) := py_lt : A → A → bool.

(** The laws of a strict total order, which [int], [str], naive [datetime]
    and tuples of them satisfy. *)
Class PyOrdLaws (A : Type) `{PyOrd A} : Prop := {
  py_lt_irrefl : ∀ x : A, py_lt x x = false;
  py_lt_trans : ∀ x y z : A, py_lt x y = true → py_lt y z = true → py_lt x z = true;
  py_lt_connex : ∀ x y : A, py_lt x y = false → py_lt y x = false → x = y
}.

(** [x <= y] on a total order: not [y < x]. *)
Definition py_le {A} `{PyOrd A} (x y : A) : Prop := py_lt y x = false.

Global Instance Z_PyOrd : PyOrd Z := Z.ltb.

(** [str] compares lexicographically by character code. *)
Global Instance str_PyOrd : PyOrd string := String.ltb.

(** Sequences compare lexicographically; a proper prefix is smaller. *)
Fixpoint seq_lt {A} `{PyOrd A} `{EqDecision A} (l1 l2 : list A) : bool :=
  match l1, l2 with
  | [], [] => false
  | [], _ :: _ => true
  | _ :: _, [] => false
  | x :: l1', y :: l2' => if decide (x = y) then seq_lt l1' l2' else py_lt x y
  end.

Global Instance list_PyOrd {A} `{PyOrd A} `{EqDecision A} : PyOrd (list A) := seq_lt.

(** A 3-tuple compares by its first differing component. *)
Global Instance tuple3_PyOrd {A B C} `{PyOrd A, PyOrd B, PyOrd C}
    `{EqDecision A, EqDecision B} : PyOrd (A * B * C) :=
  λ t1 t2,
    if decide (t1.1.1 = t2.1.1) then
      if decide (t1.1.2 = t2.1.2) then py_lt t1.2 t2.2
      else py_lt t1.1.2 t2.1.2
    else py_lt t1.1.1 t2.1.1.

(** [sorted]: a stable sort that only uses [<].  The element goes after
    every element that is not greater than it (binary insertion, which is
    what [list.sort] does on short runs).  On a total order the result does
    not depend on the sorting algorithm, see [sorted_unique]. *)
Fixpoint insort {A} (lt : A → A → bool) (x : A) (l : list A) : list A :=
  match l with
  | [] => [x]
  | y :: l' => if lt x y then x :: y :: l' else y :: insort lt x l'
  end.

Definition sorted_by {A} (lt : A → A → bool) (l : list A) : list A :=
  foldl (λ acc x, insort lt x acc) [] l.

Definition sorted {A} `{PyOrd A} (l : list A) : list A := sorted_by py_lt l.

(** ** Strings *)

(** [s.split(sep)[0]] for a one-character separator: the text before the
    first [sep], the whole text when there is none. *)
Fixpoint split_head (sep : Ascii.ascii) (s : string) : string :=
  match s with
  | EmptyString => EmptyString
  | String c s' => if decide (c = sep) then EmptyString else String c (split_head sep s')
  end.

(** [sep.join(l)]. *)
Fixpoint str_join (sep : string) (l : list string) : string :=
  match l with
  | [] => EmptyString
  | [s] => s
  | s :: l' => s +:+ sep +:+ str_join sep l'
  end.

(** ** Naive date-times *)

Record datetime : Type := mk_datetime {
  year : Z; month : Z; day : Z;
  hour : Z; minute : Z; second : Z; microsecond : Z
}.

Global Instance datetime_eq_dec : EqDecision datetime.
Proof. solve_decision. Defined.

(** Two naive date-times compare field by field, most significant first. *)
Definition dt_fields (d : datetime) : list Z :=
  [year d; month d; day d; hour d; minute d; second d; microsecond d].

Global Instance datetime_PyOrd : PyOrd datetime :=
  λ d1 d2, py_lt (dt_fields d1) (dt_fields d2).

(** ** Events *)

(** [Tuple[datetime, int, str]]: time, +1 for a start and -1 for an end,
    display name. *)
Definition event : Type := datetime * Z * string.

Definition ev_time (e : event) : datetime := e.1.1.
Definition ev_delta (e : event) : Z := e.1.2.
Definition ev_name (e : event) : string := e.2.

(** ** [get_user_dict] *)

(** The dictionary comprehension over the user records read from the JSON
    file, each a dictionary of its fields: a later record with the same
    [id] overwrites an earlier one, a record without [id] or [username]
    raises [KeyError]. *)
Fixpoint user_dict_from (user_dict : gmap string string)
    (user_info_list : list (gmap string string)) : result (gmap string string) :=
  match user_info_list with
  | [] => Ok user_dict
  | user_info :: rest =>
      id ← getitem user_info "id";
      username ← getitem user_info "username";
      user_dict_from (<[id := username]> user_dict) rest
  end.

Definition get_user_dict (user_info_list : list (gmap string string))
    : result (gmap string string) :=
  user_dict_from ∅ user_info_list.

(** ** [get_event_list] *)

Definition CSV_HEADERS : list string :=
  ["start_timestamp"; "end_timestamp"; "user_id"; "environment_id"; "object_id"].

(** A value of [row_dict]: the text of a field, or the date-time that
    replaced it. *)
Inductive cell : Type :=
| CStr (s : string)
| CTime (t : datetime).

Section Builder.

(** [datetime.fromisoformat]: [ValueError] on text that is not a date-time. *)
Context (fromisoformat : string → result datetime).

Definition cell_str (c : cell) : result string :=
  match c with
  | CStr s => Ok s
  | CTime _ => Raise (AttributeError "split")
  end.

Definition cell_time (c : cell) : result datetime :=
  match c with
  | CTime t => Ok t
  | CStr _ => Raise (AttributeError "year")
  end.

(** [row_dict[key] = datetime.fromisoformat(row_dict[key].split('+')[0])] *)
Definition parse_field (key : string) (row_dict : gmap string cell)
    : result (gmap string cell) :=
  c ← getitem row_dict key;
  text ← cell_str c;
  t ← fromisoformat (split_head "+"%char text);
  Ok (<[key := CTime t]> row_dict).

(** [row_dict[key].year < 2022] *)
Definition year_before_2022 (row_dict : gmap string cell) (key : string) : result bool :=
  t ← getitem row_dict key ≫= cell_time;
  Ok (bool_decide (year t < 2022)).

(** One turn of the loop over the rows: the event list after the row.
    [or] does not read the end date-time when the start year is before
    2022. *)
Definition read_row (user_dict : gmap string string) (event_list : list event)
    (row_list : list string) : result (list event) :=
  let row_dict := dict (zip CSV_HEADERS (CStr <$> row_list)) in
  row_dict ← parse_field "start_timestamp" row_dict;
  row_dict ← parse_field "end_timestamp" row_dict;
  early ← year_before_2022 row_dict "start_timestamp";
  skip ← (if early : bool then Ok true else year_before_2022 row_dict "end_timestamp");
  if skip : bool then
    Ok event_list
  else
    user_id ← getitem row_dict "user_id" ≫= cell_str;
    let user_name := dict_get user_dict user_id user_id in
    start ← getitem row_dict "start_timestamp" ≫= cell_time;
    stop ← getitem row_dict "end_timestamp" ≫= cell_time;
    Ok (event_list ++ [(start, 1, user_name); (stop, -1, user_name)]).

Fixpoint read_rows (user_dict : gmap string string) (event_list : list event)
    (rows : list (list string)) : result (list event) :=
  match rows with
  | [] => Ok event_list
  | row_list :: rows' =>
      event_list ← read_row user_dict event_list row_list;
      read_rows user_dict event_list rows'
  end.

Definition get_event_list (rows : list (list string))
    (user_dict : gmap string string) : result (list event) :=
  event_list ← read_rows user_dict [] rows;
  Ok (sorted event_list).

End Builder.

(** ** [write_session_count_csv_file] *)

(** A line written after the header line [datetime,sessions,users]. *)
Definition out_row : Type := datetime * Z * string.

Definition row_time (r : out_row) : datetime := r.1.1.
Definition row_sessions (r : out_row) : Z := r.1.2.
Definition row_users (r : out_row) : string := r.2.

(** The local variables of the function and the rows written so far. *)
Record sweep_state : Type := mk_sweep_state {
  session_count : Z;
  max_session_count : Z;
  current_users : gmap string Z;
  written : list out_row
}.

Definition sweep_init : sweep_state :=
  {| session_count := 0; max_session_count := 0; current_users := ∅; written := [] |}.

(** [[f'{key}={value}' for key, value in current_users.items()]]; the order
    of the items is immaterial, the list is sorted next. *)
Definition user_tokens (current_users : gmap string Z) : list string :=
  (λ kv, kv.1 +:+ "=" +:+ pretty kv.2) <$> map_to_list current_users.

Definition user_string (current_users : gmap string Z) : string :=
  str_join " " (sorted (user_tokens current_users)).

(** The two [if]s on [event[1]] that update [current_users]. *)
Definition update_users (current_users : gmap string Z) (e : event)
    : result (gmap string Z) :=
  let current_users :=
    if decide (ev_delta e = 1) then
      <[ev_name e := dict_get current_users (ev_name e) 0 + 1]> current_users
    else current_users in
  if decide (ev_delta e = -1) then
    n ← getitem current_users (ev_name e);
    let current_users := <[ev_name e := n - 1]> current_users in
    n ← getitem current_users (ev_name e);
    if decide (n = 0) then Ok (delete (ev_name e) current_users)
    else Ok current_users
  else Ok current_users.

(** One turn of the loop over the events. *)
Definition sweep_event (st : sweep_state) (e : event) : result sweep_state :=
  let timestamp := ev_time e in
  let session_count := session_count st + ev_delta e in
  current_users ← update_users (current_users st) e;
  let current_user_string := user_string current_users in
  Ok {| session_count := session_count;
        max_session_count := Z.max (max_session_count st) session_count;
        current_users := current_users;
        written := written st ++ [(timestamp, session_count, current_user_string)] |}.

(** The loop: the state after the last event, or the state before the event
    that raised, whose [written] rows stay in the file, and the exception. *)
Fixpoint sweep_loop (st : sweep_state) (event_list : list event)
    : sweep_state * option exn :=
  match event_list with
  | [] => (st, None)
  | e :: rest =>
      match sweep_event st e with
      | Ok st' => sweep_loop st' rest
      | Raise err => (st, Some err)
      end
  end.

(** The loop on a stretch of events that raises nothing. *)
Definition sweep_events (st : sweep_state) (event_list : list event)
    : result sweep_state :=
  foldl (λ r e, st ← r; sweep_event st e) (Ok st) event_list.

(** [event_list[0]] and [event_list[-1]]. *)
Definition first_item {A} (l : list A) : result A :=
  match head l with Some x => Ok x | None => Raise IndexError end.

Definition last_item {A} (l : list A) : result A :=
  match last l with Some x => Ok x | None => Raise IndexError end.

(** The summary line printed after the loop: the peak and the time span. *)
Definition summary : Type := Z * datetime * datetime.

(** The rows in the file when the function ends, and how it ends: with the
    summary printed, or with an exception. *)
Definition write_session_count_csv_file (event_list : list event)
    : list out_row * result summary :=
  match sweep_loop sweep_init event_list with
  | (st, Some err) => (written st, Raise err)
  | (st, None) =>
      (written st,
       first ← first_item event_list;
       final ← last_item event_list;
       Ok (max_session_count st, ev_time first, ev_time final))
  end.

(** ** [main] *)

(** [max(l)] on texts: the first of the greatest items, [ValueError] on the
    empty list. *)
Definition str_max (l : list string) : result string :=
  match l with
  | [] => Raise (ValueError "max() arg is an empty sequence")
  | s :: l' => Ok (foldl (λ m x, if py_lt m x then x else m) s l')
  end.

(** Whether [s] begins with [p]. *)
Fixpoint starts_with (p s : string) : bool :=
  match p, s with
  | EmptyString, _ => true
  | String _ _, EmptyString => false
  | String a p', String b s' => bool_decide (a = b) && starts_with p' s'
  end.

(** Whether [old] occurs in [s]. *)
Fixpoint str_contains (old s : string) : bool :=
  starts_with old s ||
  match s with
  | EmptyString => false
  | String _ s' => str_contains old s'
  end.

(** [s.replace(old, new)] for a non-empty [old]: the occurrences are found
    from left to right and do not overlap.  [skip] counts the characters of
    the occurrence just replaced that are still to be passed. *)
Fixpoint replace_from (old new : string) (skip : nat) (s : string) : string :=
  match s with
  | EmptyString => EmptyString
  | String c s' =>
      match skip with
      | S k => replace_from old new k s'
      | O =>
          if starts_with old s
          then new +:+ replace_from old new (String.length old - 1) s'
          else String c (replace_from old new 0 s')
      end
  end.

Definition str_replace (old new s : string) : string := replace_from old new 0 s.

(** [argv[i]]. *)
Definition argv_item (argv : list string) (i : nat) : result string :=
  match argv !! i with
  | Some a => Ok a
  | None => Raise IndexError
  end.

(** The three paths [main] settles on.  [glob] lists the files of the
    current directory that match a pattern. *)
Definition main_paths (argv : list string) (glob : string → list string)
    : result (string * string * string) :=
  session_csv_path ←
    (if decide (2 ≤ length argv)%nat then argv_item argv 1
     else str_max (glob "sessions_*.csv"));
  user_json_path ←
    (if decide (3 ≤ length argv)%nat then argv_item argv 2
     else str_max (glob "users_*.json"));
  session_count_csv_path ←
    (if decide (4 ≤ length argv)%nat then argv_item argv 3
     else Ok (str_replace "sessions_" "session_count_" session_csv_path));
  Ok (session_csv_path, user_json_path, session_count_csv_path).

(** [main], with the readers of the two input files as parameters: the
    path and the rows of the file written, if one is, and how the run
    ends. *)
Definition main (argv : list string) (glob : string → list string)
    (read_json : string → result (list (gmap string string)))
    (read_csv : string → result (list (list string)))
    (fromisoformat : string → result datetime)
    : option (string * list out_row) * result summary :=
  match
    (paths ← main_paths argv glob;
     user_info_list ← read_json paths.1.2;
     user_dict ← get_user_dict user_info_list;
     rows ← read_csv paths.1.1;
     event_list ← get_event_list fromisoformat rows user_dict;
     Ok (paths.2, event_list))
  with
  | Raise err => (None, Raise err)
  | Ok (session_count_csv_path, event_list) =>
      let report := write_session_count_csv_file event_list in
      (Some (session_count_csv_path, report.1), report.2)
  end.

(** ** A date-time reader for examples

    [YYYY-MM-DD?HH:MM:SS], the form [datetime.isoformat] writes for a
    date-time without fraction, with any separator character. *)

Definition digit_val (c : ascii) : option Z :=
  let n := Z.of_N (N_of_ascii c) in
  if bool_decide (48 ≤ n ≤ 57) then Some (n - 48) else None.

Fixpoint read_digits (n : nat) (acc : Z) (s : string) : option (Z * string) :=
  match n, s with
  | O, _ => Some (acc, s)
  | S n', String c s' => d ← digit_val c; read_digits n' (10 * acc + d) s'
  | S _, EmptyString => None
  end.

Definition read_char (ok : ascii → bool) (s : string) : option string :=
  match s with
  | String c s' => if ok c then Some s' else None
  | EmptyString => None
  end.

Definition is_char (c : ascii) : ascii → bool := λ c', bool_decide (c' = c).

Definition days_in_month (y m : Z) : Z :=
  if bool_decide (m = 2) then
    if bool_decide (y mod 4 = 0 ∧ (y mod 100 ≠ 0 ∨ y mod 400 = 0)) then 29 else 28
  else if bool_decide (m ∈ [4; 6; 9; 11]) then 30 else 31.

Definition iso_seconds (s : string) : option datetime :=
  '(y, s) ← read_digits 4 0 s;
  s ← read_char (is_char "-") s;
  '(mo, s) ← read_digits 2 0 s;
  s ← read_char (is_char "-") s;
  '(d, s) ← read_digits 2 0 s;
  s ← read_char (λ _, true) s;
  '(h, s) ← read_digits 2 0 s;
  s ← read_char (is_char ":") s;
  '(mi, s) ← read_digits 2 0 s;
  s ← read_char (is_char ":") s;
  '(sec, s) ← read_digits 2 0 s;
  if bool_decide (s = EmptyString ∧ 1 ≤ y ∧ 1 ≤ mo ≤ 12 ∧ 1 ≤ d ≤ days_in_month y mo
                  ∧ h < 24 ∧ mi < 60 ∧ sec < 60)
  then Some (mk_datetime y mo d h mi sec 0)
  else None.

Definition fromisoformat_seconds (s : string) : result datetime :=
  match iso_seconds s with
  | Some t => Ok t
  | None => Raise (ValueError s)
  end.

(** ** The notions the properties are stated with *)

Section Records.
Context (fromisoformat : string → result datetime).

(** The start and end date-times of a row that has both fields, when both
    parse. *)
Definition row_times (row_list : list string) : option (datetime * datetime) :=
  match row_list with
  | s :: e :: _ =>
      match fromisoformat (split_head "+" s), fromisoformat (split_head "+" e) with
      | Ok start, Ok stop => Some (start, stop)
      | _, _ => None
      end
  | _ => None
  end.

(** A valid record: both years are 2022 or later. *)
Definition valid_row (row_list : list string) : bool :=
  match row_times row_list with
  | Some (start, stop) => bool_decide (2022 ≤ year start ∧ 2022 ≤ year stop)
  | None => false
  end.

(** The display name of a user identifier. *)
Definition display_name (user_dict : gmap string string) (user_id : string) : string :=
  match user_dict !! user_id with
  | Some user_name => user_name
  | None => user_id
  end.

(** The start event and the end event of a record. *)
Definition row_events (user_dict : gmap string string) (row_list : list string)
    : list event :=
  match row_times row_list, row_list !! 2%nat with
  | Some (start, stop), Some user_id =>
      [(start, 1, display_name user_dict user_id);
       (stop, -1, display_name user_dict user_id)]
  | _, _ => []
  end.

End Records.

(** A well-formed event is a start or an end. *)
Definition event_ok (e : event) : Prop := ev_delta e = 1 ∨ ev_delta e = -1.

(** The number of start events and of end events of a name among events. *)
Definition starts_of (name : string) (event_list : list event) : nat :=
  length (filter (λ e, ev_delta e = 1 ∧ ev_name e = name) event_list).

Definition ends_of (name : string) (event_list : list event) : nat :=
  length (filter (λ e, ev_delta e = -1 ∧ ev_name e = name) event_list).

(** The sum of the deltas of some events. *)
Definition sum_deltas (event_list : list event) : Z :=
  foldr (λ e acc, ev_delta e + acc) 0 event_list.

(** The sum of the counts of a dictionary of counts. *)
Definition sum_counts (counts : gmap string Z) : Z :=
  map_fold (λ _ n acc, n + acc) 0 counts.

(** The count of a name, 0 when it has no entry. *)
Definition count_of (counts : gmap string Z) (name : string) : Z :=
  default 0 (counts !! name).

(** What holds of the state of the sweep after some events. *)
Record sweep_inv (event_list : list event) (st : sweep_state) : Prop := {
  inv_total : session_count st = sum_deltas event_list;
  inv_counts : ∀ name,
    count_of (current_users st) name =
    Z.of_nat (starts_of name event_list) - Z.of_nat (ends_of name event_list);
  inv_positive : ∀ name n, current_users st !! name = Some n → 1 ≤ n;
  inv_times : row_time <$> written st = ev_time <$> event_list
}.


(** ** Sessions and the events they give *)

(** A session: start time, end time, display name. *)
Definition session : Type := datetime * datetime * string.

Definition session_name (s : session) : string := s.2.
Definition session_start (s : session) : event := (s.1.1, 1, s.2).
Definition session_stop (s : session) : event := (s.1.2, -1, s.2).
Definition session_events (s : session) : list event := [session_start s; session_stop s].

(** The session of a row that has its three leading fields. *)
Definition row_session (fromisoformat : string → result datetime)
    (user_dict : gmap string string) (row_list : list string) : option session :=
  match row_times fromisoformat row_list, row_list !! 2%nat with
  | Some (start, stop), Some user_id => Some (start, stop, display_name user_dict user_id)
  | _, _ => None
  end.

(** The sessions of the valid records, in the order of the rows. *)
Definition sessions_of (fromisoformat : string → result datetime)
    (rows : list (list string)) (user_dict : gmap string string) : list session :=
  omap (row_session fromisoformat user_dict) (filter (valid_row fromisoformat) rows).

(** An event of the stream is one of the two events of one session.  A
    mark names the session by its position and says which event it is; the
    sort moves the marks with the events and looks at the events only. *)
Inductive side : Type := Start | Stop.

Global Instance side_eq_dec : EqDecision side.
Proof. solve_decision. Defined.

Definition mark : Type := nat * side.

Fixpoint marked_from (i : nat) (ss : list session) : list (event * mark) :=
  match ss with
  | [] => []
  | s :: ss' =>
      (session_start s, (i, Start)) :: (session_stop s, (i, Stop)) :: marked_from (S i) ss'
  end.

Definition marked_events (ss : list session) : list (event * mark) := marked_from 0 ss.

Definition marked_stream (ss : list session) : list (event * mark) :=
  sorted_by (λ a b, py_lt a.1 b.1) (marked_events ss).

(** An event has fired when it is among the events swept. *)
Definition fired (done_list : list (event * mark)) (m : mark) : Prop := m ∈ done_list.*2.

Global Instance fired_dec (done_list : list (event * mark)) (m : mark) :
  Decision (fired done_list m).
Proof. unfold fired. apply _. Defined.

Definition name_at (ss : list session) (i : nat) : option string :=
  session_name <$> ss !! i.

(** The sessions of a name whose start has fired and whose end has not. *)
Definition open_sessions (ss : list session) (done_list : list (event * mark))
    (name : string) : nat :=
  length (filter (λ i, name_at ss i = Some name ∧
                       fired done_list (i, Start) ∧ ¬ fired done_list (i, Stop))
            (seq 0 (length ss))).

(** The sessions of a name whose end has fired and whose start has not. *)
Definition ended_unstarted (ss : list session) (done_list : list (event * mark))
    (name : string) : nat :=
  length (filter (λ i, name_at ss i = Some name ∧
                       fired done_list (i, Stop) ∧ ¬ fired done_list (i, Start))
            (seq 0 (length ss))).

(** ** Notions for the other functions *)

(** A user record that has the two fields the comprehension reads. *)
Definition complete_record (user_info : gmap string string) : Prop :=
  is_Some (user_info !! "id") ∧ is_Some (user_info !! "username").

(** The key a record lacks: [id] is read first. *)
Definition missing_key (user_info : gmap string string) : string :=
  match user_info !! "id" with
  | None => "id"
  | Some _ => "username"
  end.

(** Whether a character occurs in a text. *)
Fixpoint contains_char (c : ascii) (s : string) : bool :=
  match s with
  | EmptyString => false
  | String c' s' => bool_decide (c' = c) || contains_char c s'
  end.

(** ** Example inputs *)

Definition demo_user_records : list (gmap string string) :=
  [dict [("id", "u1"); ("username", "Alice"); ("email", "alice@example.org")];
   dict [("id", "u2"); ("username", "Bob")]].

Definition demo_users : gmap string string :=
  Eval vm_compute in
    match get_user_dict demo_user_records with
    | Ok user_dict => user_dict
    | Raise _ => ∅
    end.

(** Alice 10:00 to 11:00, Bob 10:30 to 10:45, a record of 2021, and a
    record of a user that is not in the directory. *)
Definition demo_rows : list (list string) :=
  [["2023-01-01T10:00:00+00:00"; "2023-01-01T11:00:00+00:00"; "u1"; "env"; "obj"];
   ["2023-01-01T10:30:00"; "2023-01-01T10:45:00"; "u2"; "env"; "obj"];
   ["2021-12-31T23:00:00"; "2023-01-01T10:45:00"; "u2"; "env"; "obj"];
   ["2023-01-01T10:50:00"; "2023-01-01T10:55:00"; "u9"; "env"]].

Definition demo_events : list event :=
  Eval vm_compute in
    match get_event_list fromisoformat_seconds demo_rows demo_users with
    | Ok event_list => event_list
    | Raise _ => []
    end.

Definition at_time (h m : Z) : datetime := mk_datetime 2023 1 1 h m 0 0.

(** The record of 2021 of [demo_rows]. *)
Definition old_row : list string :=
  ["2021-12-31T23:00:00"; "2023-01-01T10:45:00"; "u2"; "env"; "obj"].

Definition old_start : datetime := mk_datetime 2021 12 31 23 0 0 0.

(** The record of [demo_rows] whose user is not in the directory; it has
    four fields. *)
Definition stranger_row : list string :=
  ["2023-01-01T10:50:00"; "2023-01-01T10:55:00"; "u9"; "env"].

(** A row that stops after its two date-times. *)
Definition two_field_row : list string :=
  ["2023-01-01T10:00:00"; "2023-01-01T11:00:00"].

(** A session that starts and ends at the same time. *)
Definition instant_rows : list (list string) :=
  [["2023-01-01T10:00:00"; "2023-01-01T10:00:00"; "u1"; "env"; "obj"]].

Definition instant_events : list event :=
  [(at_time 10 0, -1, "Alice"); (at_time 10 0, 1, "Alice")].

(** Two sessions of one user: the second ends, at 11:00, before it starts,
    at 11:30, while the first is open from 10:00 to 12:00. *)
Definition backward_rows : list (list string) :=
  [["2023-01-01T10:00:00"; "2023-01-01T12:00:00"; "u1"; "env"; "obj"];
   ["2023-01-01T11:30:00"; "2023-01-01T11:00:00"; "u1"; "env"; "obj"]].

Definition demo_sessions : list session :=
  Eval vm_compute in sessions_of fromisoformat_seconds demo_rows demo_users.

(** ** Example inputs for the other functions *)

(** A directory in which the second record lacks its [username]. *)
Definition broken_user_records : list (gmap string string) :=
  [dict [("id", "u1"); ("username", "Alice")];
   dict [("id", "u2")];
   dict [("username", "Carol")]].

(** Two records with the same [id]. *)
Definition renamed_user_records : list (gmap string string) :=
  [dict [("id", "u1"); ("username", "Alice")];
   dict [("id", "u2"); ("username", "Bob")];
   dict [("id", "u1"); ("username", "Alicia")]].

Definition renamed_users : gmap string string :=
  Eval vm_compute in
    match get_user_dict renamed_user_records with
    | Ok user_dict => user_dict
    | Raise _ => ∅
    end.

(** A row whose end date-time does not parse, and whose start year is
    before 2022. *)
Definition bad_end_row : list string :=
  ["2021-06-01T10:00:00"; "11 o'clock"; "u1"; "env"; "obj"].

Definition alice_row : list string :=
  ["2023-01-01T10:00:00"; "2023-01-01T11:00:00"; "u1"; "env"; "obj"].

(** The files of a working directory. *)
Definition demo_glob (pattern : string) : list string :=
  if decide (pattern = "sessions_*.csv") then
    ["sessions_20230101.csv"; "sessions_20230301.csv"; "sessions_20230201.csv"]
  else if decide (pattern = "users_*.json") then
    ["users_20230101.json"; "users_20221201.json"]
  else [].

Definition empty_glob (pattern : string) : list string := [].

(** * Properties *)

(** ** The orders *)

Global Instance Z_PyOrdLaws : PyOrdLaws Z.
Proof.
  split; unfold py_lt, Z_PyOrd.
  - intros x. apply Z.ltb_irrefl.
  - intros x y z Hxy Hyz. apply Z.ltb_lt in Hxy, Hyz. apply Z.ltb_lt. lia.
  - intros x y Hxy Hyx. apply Z.ltb_ge in Hxy, Hyx. lia.
Qed.

Lemma str_lt_not_le (s1 s2 : string) : py_lt s1 s2 = negb (String.leb s2 s1).
Proof.
  unfold py_lt, str_PyOrd, String.ltb, String.leb.
  rewrite (String.compare_antisym s2 s1).
  by destruct (String.compare s1 s2).
Qed.

Global Instance str_PyOrdLaws : PyOrdLaws string.
Proof.
  split.
  - intros x. rewrite str_lt_not_le.
    pose proof (reflexivity (R := String.le) x) as Hx.
    unfold String.le in Hx. by destruct (String.leb x x).
  - intros x y z. rewrite !str_lt_not_le.
    intros Hxy%negb_true_iff Hyz%negb_true_iff. apply negb_true_iff.
    destruct (String.leb z x) eqn:Hzx; [|done].
    destruct (String.leb_total y z) as [Hle|Hle]; [|congruence].
    assert (String.le y x) as Hyx.
    { transitivity z; unfold String.le; [by rewrite Hle | by rewrite Hzx]. }
    unfold String.le in Hyx. by rewrite Hxy in Hyx.
  - intros x y. rewrite !str_lt_not_le.
    intros Hxy%negb_false_iff Hyx%negb_false_iff.
    by apply String.leb_antisym.
Qed.

Section SeqOrder.
Context {A : Type} `{PyOrdLaws A} `{EqDecision A}.

Lemma seq_lt_irrefl (l : list A) : seq_lt l l = false.
Proof. induction l as [|x l IH]; simpl; [done|]. by rewrite decide_True. Qed.

Lemma seq_lt_trans (l1 l2 l3 : list A) :
  seq_lt l1 l2 = true → seq_lt l2 l3 = true → seq_lt l1 l3 = true.
Proof.
  revert l2 l3. induction l1 as [|x l1 IH]; intros [|y l2] [|z l3]; simpl; try done.
  repeat case_decide; simplify_eq; try done.
  - apply IH.
  - intros Hlt1 Hlt2. pose proof (py_lt_trans _ _ _ Hlt1 Hlt2) as Hzz.
    by rewrite py_lt_irrefl in Hzz.
  - apply py_lt_trans.
Qed.

Lemma seq_lt_connex (l1 l2 : list A) :
  seq_lt l1 l2 = false → seq_lt l2 l1 = false → l1 = l2.
Proof.
  revert l2. induction l1 as [|x l1 IH]; intros [|y l2]; simpl; try done.
  destruct (decide (x = y)) as [->|Hxy].
  - rewrite decide_True by done. intros ??. f_equal. by apply IH.
  - rewrite decide_False by done. intros ??. destruct Hxy. by apply py_lt_connex.
Qed.

Global Instance list_PyOrdLaws : PyOrdLaws (list A).
Proof.
  split; [apply seq_lt_irrefl | apply seq_lt_trans | apply seq_lt_connex].
Qed.

End SeqOrder.

Lemma dt_fields_inj (d1 d2 : datetime) : dt_fields d1 = dt_fields d2 → d1 = d2.
Proof. destruct d1, d2. unfold dt_fields; simpl. by intros [= -> -> -> -> -> -> ->]. Qed.

Lemma datetime_lt_fields (d1 d2 : datetime) :
  py_lt d1 d2 = seq_lt (dt_fields d1) (dt_fields d2).
Proof. done. Qed.

Global Instance datetime_PyOrdLaws : PyOrdLaws datetime.
Proof.
  split.
  - intros x. rewrite datetime_lt_fields. apply seq_lt_irrefl.
  - intros x y z. rewrite !datetime_lt_fields. apply seq_lt_trans.
  - intros x y. rewrite !datetime_lt_fields. intros ??.
    by apply dt_fields_inj, seq_lt_connex.
Qed.

Section TupleOrder.
Context {A B C : Type} `{PyOrdLaws A, PyOrdLaws B, PyOrdLaws C}.
Context `{EqDecision A, EqDecision B}.

Lemma tuple3_lt_unfold (a1 a2 : A) (b1 b2 : B) (c1 c2 : C) :
  py_lt (a1, b1, c1) (a2, b2, c2) =
  if decide (a1 = a2) then if decide (b1 = b2) then py_lt c1 c2 else py_lt b1 b2
  else py_lt a1 a2.
Proof. done. Qed.

Global Instance tuple3_PyOrdLaws : PyOrdLaws (A * B * C).
Proof.
  split.
  - intros [[a b] c]. rewrite tuple3_lt_unfold, !decide_True by done.
    apply py_lt_irrefl.
  - intros [[a1 b1] c1] [[a2 b2] c2] [[a3 b3] c3]. rewrite !tuple3_lt_unfold.
    repeat case_decide; simplify_eq; try done; intros Hlt1 Hlt2; try done;
      first [ by eapply py_lt_trans
            | pose proof (py_lt_trans _ _ _ Hlt1 Hlt2) as Hirr;
              by rewrite py_lt_irrefl in Hirr ].
  - intros [[a1 b1] c1] [[a2 b2] c2]. rewrite !tuple3_lt_unfold.
    repeat case_decide; simplify_eq; try done; intros Hlt1 Hlt2.
    + f_equal. by apply py_lt_connex.
    + exfalso. eauto using py_lt_connex.
    + exfalso. eauto using py_lt_connex.
Qed.

End TupleOrder.

Global Instance event_PyOrdLaws : PyOrdLaws event.
Proof. apply _. Qed.

(** ** [sorted] *)

Section SortedFacts.
Context {A : Type} `{PyOrdLaws A}.
Implicit Types (x y : A) (l : list A).


Global Instance py_le_trans : Transitive (py_le (A := A)).
Proof.
  intros x y z Hxy Hyz. unfold py_le in *.
  destruct (py_lt z x) eqn:Hzx; [|done].
  destruct (py_lt x y) eqn:Hlt.
  - by rewrite (py_lt_trans _ _ _ Hzx Hlt) in Hyz.
  - rewrite (py_lt_connex _ _ Hlt Hxy) in Hzx. congruence.
Qed.

Global Instance py_le_antisym : AntiSymm (=) (py_le (A := A)).
Proof. intros x y Hxy Hyx. by apply py_lt_connex. Qed.

Global Instance py_le_total : Total (py_le (A := A)).
Proof.
  intros x y. unfold py_le.
  destruct (py_lt y x) eqn:Hyx; [|by left].
  right. destruct (py_lt x y) eqn:Hxy; [|done].
  by rewrite <-(py_lt_irrefl x), (py_lt_trans _ _ _ Hxy Hyx).
Qed.

Lemma py_lt_le x y : py_lt x y = true → py_le x y.
Proof. intros Hlt. destruct (total py_le x y) as [|Hle]; [done|]. congruence. Qed.

Lemma insort_perm (lt : A → A → bool) x l : insort lt x l ≡ₚ x :: l.
Proof.
  induction l as [|y l IH]; simpl; [done|].
  destruct (lt x y); [done|]. by rewrite IH, Permutation_swap.
Qed.

Lemma sorted_by_perm_acc (lt : A → A → bool) l acc :
  foldl (λ acc x, insort lt x acc) acc l ≡ₚ acc ++ l.
Proof.
  revert acc. induction l as [|x l IH]; intros acc; simpl.
  - by rewrite app_nil_r.
  - rewrite IH, insort_perm. simpl. by rewrite Permutation_middle.
Qed.

Lemma sorted_perm l : sorted l ≡ₚ l.
Proof. apply (sorted_by_perm_acc py_lt l []). Qed.

Lemma sorted_length l : length (sorted l) = length l.
Proof. by rewrite sorted_perm. Qed.

Lemma insort_Sorted x l : Sorted py_le l → Sorted py_le (insort py_lt x l).
Proof.
  induction l as [|y l IH]; simpl; intros Hs.
  - by repeat constructor.
  - destruct (py_lt x y) eqn:Hlt.
    + constructor; [done|]. constructor. by apply py_lt_le.
    + apply Sorted_inv in Hs as [Hs Hhd]. constructor; [by apply IH|].
      destruct l as [|z l]; simpl.
      * by constructor.
      * destruct (py_lt x z); constructor; [done|]. by inversion Hhd.
Qed.

Lemma sorted_Sorted l : Sorted py_le (sorted l).
Proof.
  unfold sorted, sorted_by. generalize (Sorted_nil (py_le (A := A))).
  generalize (@nil A) as acc. induction l as [|x l IH]; intros acc Hacc; simpl.
  - done.
  - by apply IH, insort_Sorted.
Qed.

Lemma sorted_StronglySorted l : StronglySorted py_le (sorted l).
Proof. apply Sorted_StronglySorted; [apply _|apply sorted_Sorted]. Qed.

(** The result of [sorted] is the only ascending arrangement of the list:
    the sorting algorithm does not matter. *)
Lemma sorted_unique l l' : Sorted py_le l' → l' ≡ₚ l → l' = sorted l.
Proof.
  intros Hs Hp. apply (Sorted_unique py_le); [done|apply sorted_Sorted|].
  by rewrite sorted_perm.
Qed.

Lemma sorted_perm_eq l1 l2 : l1 ≡ₚ l2 → sorted l1 = sorted l2.
Proof.
  intros Hp. apply sorted_unique; [apply sorted_Sorted|]. by rewrite sorted_perm.
Qed.

Lemma sorted_nil : sorted (@nil A) = [].
Proof. done. Qed.

End SortedFacts.

(** ** Dictionaries built from pairs *)

Lemma dict_list_to_map {V} (pairs : list (string * V)) :
  dict pairs = list_to_map (reverse pairs).
Proof.
  unfold dict. induction pairs as [|[k v] pairs IH] using rev_ind; [done|].
  by rewrite foldl_app, reverse_app, IH.
Qed.

Lemma zip_fst_NoDup {V} (ks : list string) (vs : list V) :
  NoDup ks → NoDup (zip ks vs).*1.
Proof.
  intros Hnd. revert vs. induction Hnd as [|k ks Hk Hnd IH]; intros [|v vs]; simpl;
    try constructor; [|done].
  intros Hin. apply list_elem_of_fmap in Hin as [[k' v'] [-> Hin]].
  by apply elem_of_zip_l in Hin.
Qed.

Lemma dict_zip_lookup {V} (ks : list string) (vs : list V) (i : nat) (k : string) :
  NoDup ks → ks !! i = Some k → dict (zip ks vs) !! k = vs !! i.
Proof.
  intros Hnd Hk. rewrite dict_list_to_map.
  assert (NoDup (reverse (zip ks vs)).*1) as Hnd'.
  { rewrite fmap_reverse, reverse_Permutation. by apply zip_fst_NoDup. }
  destruct (vs !! i) as [v|] eqn:Hv.
  - apply (elem_of_list_to_map_1 _ _ _ Hnd'). rewrite elem_of_reverse.
    apply list_elem_of_lookup. exists i. apply lookup_zip_with_Some; eauto.
  - apply not_elem_of_list_to_map_1. intros Hin.
    apply list_elem_of_fmap in Hin as [[k' v'] [Hkk Hin]]; simpl in Hkk; subst k'.
    rewrite elem_of_reverse in Hin. apply list_elem_of_lookup in Hin as [j Hj].
    apply lookup_zip_with_Some in Hj as (k' & v'' & [= <- <-] & Hkj & Hvj).
    rewrite (NoDup_lookup _ _ _ _ Hnd Hk Hkj) in Hv. congruence.
Qed.

(** ** The builder, row by row *)

Lemma CSV_HEADERS_NoDup : NoDup CSV_HEADERS.
Proof. compute_done. Qed.

Lemma row_dict_lookup (row_list : list string) (i : nat) (k : string) :
  CSV_HEADERS !! i = Some k →
  dict (zip CSV_HEADERS (CStr <$> row_list)) !! k = CStr <$> row_list !! i.
Proof.
  intros Hk. rewrite (dict_zip_lookup _ _ i) by (done || apply CSV_HEADERS_NoDup).
  by rewrite list_lookup_fmap.
Qed.

Section BuilderFacts.
Context (fromisoformat : string → result datetime).
Context (user_dict : gmap string string).

Local Abbreviation read_row := (read_row fromisoformat user_dict).
Local Abbreviation read_rows := (read_rows fromisoformat user_dict).
Local Abbreviation get_event_list := (get_event_list fromisoformat).
Local Abbreviation row_times := (row_times fromisoformat).
Local Abbreviation valid_row := (valid_row fromisoformat).
Local Abbreviation row_events := (row_events fromisoformat user_dict).

(** What one turn of the loop does, by the number of fields of the row. *)
Lemma read_row_unfold (event_list : list event) (row_list : list string) :
  read_row event_list row_list =
  match row_list with
  | [] => Raise (KeyError "start_timestamp")
  | s :: rest =>
      start ← fromisoformat (split_head "+" s);
      match rest with
      | [] => Raise (KeyError "end_timestamp")
      | e :: rest' =>
          stop ← fromisoformat (split_head "+" e);
          if bool_decide (year start < 2022) || bool_decide (year stop < 2022)
          then Ok event_list
          else match rest' with
               | [] => Raise (KeyError "user_id")
               | user_id :: _ =>
                   Ok (event_list ++ [(start, 1, display_name user_dict user_id);
                                      (stop, -1, display_name user_dict user_id)])
               end
      end
  end.
Proof.
  unfold read_row, parse_field, year_before_2022, getitem.
  pose proof (row_dict_lookup row_list 0 _ eq_refl) as H0.
  pose proof (row_dict_lookup row_list 1 _ eq_refl) as H1.
  pose proof (row_dict_lookup row_list 2 _ eq_refl) as H2.
  revert H0 H1 H2. generalize (dict (zip CSV_HEADERS (CStr <$> row_list))).
  intros d H0 H1 H2. rewrite H0.
  destruct row_list as [|s rest]; [done|]. simpl.
  destruct (fromisoformat (split_head "+" s)) as [start|err]; [|done]. simpl.
  rewrite lookup_insert_ne, H1 by done.
  destruct rest as [|e rest']; [done|]. simpl.
  destruct (fromisoformat (split_head "+" e)) as [stop|err]; [|done]. simpl.
  repeat (rewrite lookup_insert_eq || rewrite lookup_insert_ne by done); simpl.
  destruct (bool_decide (year start < 2022)); simpl; [done|].
  repeat (rewrite lookup_insert_eq || rewrite lookup_insert_ne by done); simpl.
  destruct (bool_decide (year stop < 2022)); simpl; [done|].
  rewrite H2.
  destruct rest' as [|user_id rest'']; [done|]. simpl.
  repeat (rewrite lookup_insert_eq || rewrite lookup_insert_ne by done); simpl.
  unfold dict_get, display_name. by destruct (user_dict !! user_id).
Qed.

Lemma valid_row_years (row_list : list string) (start stop : datetime) :
  row_times row_list = Some (start, stop) →
  valid_row row_list = negb (bool_decide (year start < 2022) || bool_decide (year stop < 2022)).
Proof.
  intros Ht. unfold valid_row. rewrite Ht.
  repeat case_bool_decide; simpl; try done; lia.
Qed.

(** A turn of the loop that raises nothing appends the two events of a
    valid record and nothing for any other. *)
Lemma read_row_Ok (event_list event_list' : list event) (row_list : list string) :
  read_row event_list row_list = Ok event_list' →
  is_Some (row_times row_list) ∧
  event_list' = event_list ++ (if valid_row row_list then row_events row_list else []) ∧
  (valid_row row_list = true → ∃ start stop user_id,
     row_times row_list = Some (start, stop) ∧ row_list !! 2%nat = Some user_id ∧
     row_events row_list = [(start, 1, display_name user_dict user_id);
                            (stop, -1, display_name user_dict user_id)]).
Proof.
  rewrite read_row_unfold.
  destruct row_list as [|s [|e rest]]; simpl; try done.
  { by destruct (fromisoformat (split_head "+" s)). }
  destruct (fromisoformat (split_head "+" s)) as [start|] eqn:Hs; [simpl|done].
  destruct (fromisoformat (split_head "+" e)) as [stop|] eqn:He; [simpl|done].
  assert (row_times (s :: e :: rest) = Some (start, stop)) as Ht.
  { simpl. by rewrite Hs, He. }
  rewrite (valid_row_years _ _ _ Ht). unfold row_events. rewrite Ht.
  destruct (bool_decide (year start < 2022) || bool_decide (year stop < 2022)); simpl.
  - intros [= <-]. by rewrite app_nil_r.
  - destruct rest as [|user_id rest]; [done|]. intros [= <-]. simpl. eauto 10.
Qed.

Lemma read_rows_Ok (rows : list (list string)) (event_list event_list' : list event) :
  read_rows event_list rows = Ok event_list' →
  event_list' = event_list ++ (filter valid_row rows ≫= row_events).
Proof.
  revert event_list. induction rows as [|row_list rows IH]; intros event_list; simpl.
  - intros [= <-]. by rewrite app_nil_r.
  - destruct (read_row event_list row_list) as [evs|] eqn:Hrow; simpl; [|done].
    intros Hrest. apply IH in Hrest as ->.
    apply read_row_Ok in Hrow as (_ & -> & _).
    rewrite filter_cons. case_decide as Hv.
    + apply Is_true_true in Hv. by rewrite Hv, bind_cons, app_assoc.
    + apply Is_true_false in Hv. by rewrite Hv, app_nil_r.
Qed.

(** The builder does return when every row has its three leading fields
    and its date-times parse. *)
Lemma read_rows_total (rows : list (list string)) (event_list : list event) :
  Forall (λ row_list, is_Some (row_times row_list) ∧ (3 ≤ length row_list)%nat) rows →
  ∃ event_list', read_rows event_list rows = Ok event_list'.
Proof.
  intros Hrows. revert event_list.
  induction Hrows as [|row_list rows [[[start stop] Ht] Hlen] _ IH]; intros event_list.
  - by eexists.
  - simpl. rewrite read_row_unfold.
    destruct row_list as [|s [|e [|user_id rest]]]; simpl in Hlen; try lia.
    simpl in Ht.
    destruct (fromisoformat (split_head "+" s)); [simpl|done].
    destruct (fromisoformat (split_head "+" e)); [simpl|done].
    destruct (_ || _); simpl; apply IH.
Qed.

Lemma get_event_list_Ok (rows : list (list string)) (event_list : list event) :
  get_event_list rows user_dict = Ok event_list →
  event_list = sorted (filter valid_row rows ≫= row_events).
Proof.
  unfold get_event_list.
  destruct (read_rows [] rows) as [evs|] eqn:Hrows; simpl; [|done].
  intros [= <-]. by apply read_rows_Ok in Hrows as ->.
Qed.

Lemma get_event_list_total (rows : list (list string)) :
  Forall (λ row_list, is_Some (row_times row_list) ∧ (3 ≤ length row_list)%nat) rows →
  ∃ event_list, get_event_list rows user_dict = Ok event_list.
Proof.
  intros Hrows. destruct (read_rows_total rows [] Hrows) as [evs Hevs].
  unfold get_event_list. rewrite Hevs. by eexists.
Qed.

End BuilderFacts.

(** ** The sweep, event by event *)

Lemma update_users_unfold (counts : gmap string Z) (e : event) :
  update_users counts e =
  if decide (ev_delta e = 1) then
    Ok (<[ev_name e := count_of counts (ev_name e) + 1]> counts)
  else if decide (ev_delta e = -1) then
    match counts !! ev_name e with
    | None => Raise (KeyError (ev_name e))
    | Some n => Ok (if decide (n = 1) then delete (ev_name e) counts
                    else <[ev_name e := n - 1]> counts)
    end
  else Ok counts.
Proof.
  unfold update_users, getitem, dict_get, count_of.
  destruct (decide (ev_delta e = 1)) as [H1|H1].
  - rewrite decide_False by lia. done.
  - destruct (decide (ev_delta e = -1)); [|done].
    destruct (counts !! ev_name e) as [n|]; [simpl|done].
    rewrite lookup_insert_eq. simpl.
    destruct (decide (n - 1 = 0)), (decide (n = 1)); try lia; [|done].
    by rewrite delete_insert_eq.
Qed.

(** A start event never raises. *)
Lemma sweep_event_start (st : sweep_state) (t : datetime) (name : string) :
  sweep_event st (t, 1, name) =
  let counts := <[name := count_of (current_users st) name + 1]> (current_users st) in
  Ok {| session_count := session_count st + 1;
        max_session_count := Z.max (max_session_count st) (session_count st + 1);
        current_users := counts;
        written := written st ++ [(t, session_count st + 1, user_string counts)] |}.
Proof. unfold sweep_event. by rewrite update_users_unfold. Qed.

(** An end event raises [KeyError] exactly when its name has no entry. *)
Lemma sweep_event_end_absent (st : sweep_state) (t : datetime) (name : string) :
  current_users st !! name = None →
  sweep_event st (t, -1, name) = Raise (KeyError name).
Proof.
  intros Hname. unfold sweep_event. rewrite update_users_unfold. simpl.
  by rewrite Hname.
Qed.

Lemma sweep_event_Ok (st st' : sweep_state) (e : event) :
  sweep_event st e = Ok st' →
  ∃ counts, update_users (current_users st) e = Ok counts ∧
    session_count st' = session_count st + ev_delta e ∧
    max_session_count st' = Z.max (max_session_count st) (session_count st + ev_delta e) ∧
    current_users st' = counts ∧
    written st' = written st ++ [(ev_time e, session_count st + ev_delta e, user_string counts)].
Proof.
  unfold sweep_event.
  destruct (update_users (current_users st) e) as [counts|]; simpl; [|done].
  intros [= <-]. by exists counts.
Qed.

Lemma sweep_events_nil (st : sweep_state) : sweep_events st [] = Ok st.
Proof. done. Qed.

Lemma sweep_events_snoc (st : sweep_state) (event_list : list event) (e : event) :
  sweep_events st (event_list ++ [e]) =
  (st' ← sweep_events st event_list; sweep_event st' e).
Proof. unfold sweep_events. by rewrite foldl_app. Qed.

Lemma sweep_events_raise (err : exn) (event_list : list event) :
  foldl (λ r e, st ← r; sweep_event st e) (Raise err) event_list = Raise err.
Proof. induction event_list as [|e l IH]; simpl; done. Qed.

Lemma sweep_events_cons (st : sweep_state) (e : event) (event_list : list event) :
  sweep_events st (e :: event_list) =
  (st' ← sweep_event st e; sweep_events st' event_list).
Proof.
  unfold sweep_events. simpl.
  destruct (sweep_event st e); simpl; [done|apply sweep_events_raise].
Qed.

Lemma sweep_events_app (st : sweep_state) (l1 l2 : list event) :
  sweep_events st (l1 ++ l2) = (st' ← sweep_events st l1; sweep_events st' l2).
Proof.
  revert st. induction l1 as [|e l1 IH]; intros st; [done|].
  rewrite <-app_comm_cons, !sweep_events_cons.
  destruct (sweep_event st e); simpl; [apply IH|done].
Qed.

(** The loop ends normally exactly when no turn raises. *)
Lemma sweep_loop_None (st st' : sweep_state) (event_list : list event) :
  sweep_loop st event_list = (st', None) ↔ sweep_events st event_list = Ok st'.
Proof.
  revert st. induction event_list as [|e l IH]; intros st.
  - simpl. rewrite sweep_events_nil. naive_solver.
  - simpl. rewrite sweep_events_cons.
    destruct (sweep_event st e); simpl; [apply IH|]. by split.
Qed.

(** The loop ends with an exception exactly when the turn of some event
    raises it, after the turns of the events before it. *)
Lemma sweep_loop_Some (st st' : sweep_state) (event_list : list event) (err : exn) :
  sweep_loop st event_list = (st', Some err) ↔
  ∃ done_list e rest, event_list = done_list ++ e :: rest ∧
    sweep_events st done_list = Ok st' ∧ sweep_event st' e = Raise err.
Proof.
  revert st. induction event_list as [|e l IH]; intros st; simpl.
  - split; [done|]. intros (d & e & r & Heq & _). by destruct d.
  - destruct (sweep_event st e) as [st1|err1] eqn:He.
    + rewrite IH. split.
      * intros (d & e' & r & -> & Hd & He').
        exists (e :: d), e', r. rewrite sweep_events_cons, He. done.
      * intros (d & e' & r & Heq & Hd & He').
        destruct d as [|e0 d]; simplify_eq/=.
        -- rewrite sweep_events_nil in Hd. congruence.
        -- rewrite sweep_events_cons, He in Hd. eauto 10.
    + split.
      * intros [= <- <-]. by exists [], e, l.
      * intros (d & e' & r & Heq & Hd & He').
        destruct d as [|e0 d]; simplify_eq/=.
        -- rewrite sweep_events_nil in Hd. congruence.
        -- rewrite sweep_events_cons, He in Hd. done.
Qed.

(** ** Counting events and counts *)

Lemma starts_of_snoc (name : string) (event_list : list event) (e : event) :
  starts_of name (event_list ++ [e]) =
  (starts_of name event_list +
   if decide (ev_delta e = 1%Z ∧ ev_name e = name) then 1 else 0)%nat.
Proof.
  unfold starts_of. rewrite filter_app, length_app, filter_cons, filter_nil.
  by case_decide.
Qed.

Lemma ends_of_snoc (name : string) (event_list : list event) (e : event) :
  ends_of name (event_list ++ [e]) =
  (ends_of name event_list +
   if decide (ev_delta e = (-1)%Z ∧ ev_name e = name) then 1 else 0)%nat.
Proof.
  unfold ends_of. rewrite filter_app, length_app, filter_cons, filter_nil.
  by case_decide.
Qed.

Lemma sum_deltas_app (l1 l2 : list event) :
  sum_deltas (l1 ++ l2) = sum_deltas l1 + sum_deltas l2.
Proof. unfold sum_deltas. induction l1 as [|e l1 IH]; simpl; lia. Qed.

Lemma sum_deltas_perm (l1 l2 : list event) :
  l1 ≡ₚ l2 → sum_deltas l1 = sum_deltas l2.
Proof. unfold sum_deltas. induction 1; simpl; lia. Qed.

Lemma count_of_insert (counts : gmap string Z) (name name' : string) (n : Z) :
  count_of (<[name := n]> counts) name' =
  if decide (name = name') then n else count_of counts name'.
Proof. unfold count_of. rewrite lookup_insert. by case_decide. Qed.

Lemma count_of_delete (counts : gmap string Z) (name name' : string) :
  count_of (delete name counts) name' =
  if decide (name = name') then 0 else count_of counts name'.
Proof. unfold count_of. rewrite lookup_delete. by case_decide. Qed.

Lemma sum_counts_empty : sum_counts ∅ = 0.
Proof. apply map_fold_empty. Qed.

Lemma sum_counts_insert_fresh (counts : gmap string Z) (name : string) (n : Z) :
  counts !! name = None → sum_counts (<[name := n]> counts) = n + sum_counts counts.
Proof. intros Hname. unfold sum_counts. rewrite map_fold_insert_L; [done| |done]. intros. lia. Qed.

Lemma sum_counts_delete (counts : gmap string Z) (name : string) :
  sum_counts (delete name counts) = sum_counts counts - count_of counts name.
Proof.
  unfold count_of. destruct (counts !! name) as [n|] eqn:Hname; simpl.
  - unfold sum_counts. rewrite (map_fold_delete_L _ _ name n counts); [lia| |done].
    intros. lia.
  - rewrite delete_id by done. lia.
Qed.

Lemma sum_counts_insert (counts : gmap string Z) (name : string) (n : Z) :
  sum_counts (<[name := n]> counts) = sum_counts counts - count_of counts name + n.
Proof.
  rewrite <-insert_delete_eq, sum_counts_insert_fresh by apply lookup_delete_eq.
  rewrite sum_counts_delete. lia.
Qed.

(** ** The invariant of the sweep *)

Lemma sweep_inv_init : sweep_inv [] sweep_init.
Proof. by split. Qed.

Lemma update_users_cases (counts counts' : gmap string Z) (e : event) :
  update_users counts e = Ok counts' →
  (ev_delta e = 1 ∧ counts' = <[ev_name e := count_of counts (ev_name e) + 1]> counts) ∨
  (ev_delta e = -1 ∧ ∃ n, counts !! ev_name e = Some n ∧
     counts' = if decide (n = 1) then delete (ev_name e) counts
               else <[ev_name e := n - 1]> counts) ∨
  (ev_delta e ≠ 1 ∧ ev_delta e ≠ -1 ∧ counts' = counts).
Proof.
  rewrite update_users_unfold. repeat case_decide.
  - intros [= <-]. by left.
  - destruct (counts !! ev_name e) as [n|]; [|done]. intros [= <-]. right; left. eauto.
  - intros [= <-]. by right; right.
Qed.

Lemma update_users_count (counts counts' : gmap string Z) (e : event) (name : string) :
  update_users counts e = Ok counts' →
  count_of counts' name =
  count_of counts name
  + (if decide (ev_delta e = 1 ∧ ev_name e = name) then 1 else 0)
  - (if decide (ev_delta e = -1 ∧ ev_name e = name) then 1 else 0).
Proof.
  intros [[Hd ->]|[(Hd & n & Hn & ->)|(Hd1 & Hd2 & ->)]]%update_users_cases.
  - rewrite count_of_insert. repeat case_decide; destruct_and?; subst; try lia; naive_solver.
  - assert (count_of counts (ev_name e) = n) as Hc by (unfold count_of; by rewrite Hn).
    destruct (decide (n = 1)).
    + rewrite count_of_delete.
      repeat case_decide; destruct_and?; subst; try lia; naive_solver.
    + rewrite count_of_insert.
      repeat case_decide; destruct_and?; subst; try lia; naive_solver.
  - repeat case_decide; destruct_and?; subst; try lia.
Qed.

Lemma update_users_positive (counts counts' : gmap string Z) (e : event) :
  (∀ name n, counts !! name = Some n → 1 ≤ n) →
  update_users counts e = Ok counts' →
  ∀ name n, counts' !! name = Some n → 1 ≤ n.
Proof.
  intros Hpos [[Hd ->]|[(Hd & n & Hn & ->)|(Hd1 & Hd2 & ->)]]%update_users_cases name m;
    [| |apply Hpos].
  - rewrite lookup_insert. case_decide; [|apply Hpos].
    intros [= <-]. unfold count_of.
    destruct (counts !! ev_name e) as [n|] eqn:Hn; simpl; [|lia].
    apply Hpos in Hn. lia.
  - apply Hpos in Hn. destruct (decide (n = 1)).
    + rewrite lookup_delete. case_decide; [done|apply Hpos].
    + rewrite lookup_insert. case_decide; [|apply Hpos]. intros [= <-]. lia.
Qed.

Lemma sweep_inv_step (event_list : list event) (st st' : sweep_state) (e : event) :
  sweep_inv event_list st → sweep_event st e = Ok st' →
  sweep_inv (event_list ++ [e]) st'.
Proof.
  intros [Htot Hcnt Hpos Htimes] (counts & Hupd & Hsc & _ & Hcu & Hw)%sweep_event_Ok.
  split.
  - rewrite Hsc, Htot, sum_deltas_app. simpl. lia.
  - intros name. rewrite Hcu, (update_users_count _ _ _ _ Hupd), Hcnt.
    rewrite starts_of_snoc, ends_of_snoc. repeat case_decide; lia.
  - rewrite Hcu. by eapply update_users_positive.
  - rewrite Hw, !fmap_app, Htimes. done.
Qed.

(** The invariant holds after every stretch of events swept from the
    start without an exception. *)
Lemma sweep_events_inv (event_list : list event) (st : sweep_state) :
  sweep_events sweep_init event_list = Ok st → sweep_inv event_list st.
Proof.
  revert st. induction event_list as [|e l IH] using rev_ind; intros st.
  - rewrite sweep_events_nil. intros [= <-]. apply sweep_inv_init.
  - rewrite sweep_events_snoc.
    destruct (sweep_events sweep_init l) as [st0|]; simpl; [|done].
    intros He. eapply sweep_inv_step; [by apply IH|done].
Qed.

Lemma update_users_sum (counts counts' : gmap string Z) (e : event) :
  event_ok e → update_users counts e = Ok counts' →
  sum_counts counts' = sum_counts counts + ev_delta e.
Proof.
  intros Hok [[Hd ->]|[(Hd & n & Hn & ->)|(Hd1 & Hd2 & ->)]]%update_users_cases.
  - rewrite sum_counts_insert. lia.
  - assert (count_of counts (ev_name e) = n) as Hc by (unfold count_of; by rewrite Hn).
    destruct (decide (n = 1)).
    + rewrite sum_counts_delete. lia.
    + rewrite sum_counts_insert. lia.
  - destruct Hok; lia.
Qed.

Lemma sweep_events_sum (event_list : list event) (st : sweep_state) :
  Forall event_ok event_list → sweep_events sweep_init event_list = Ok st →
  sum_counts (current_users st) = session_count st.
Proof.
  revert st. induction event_list as [|e l IH] using rev_ind; intros st Hok.
  - rewrite sweep_events_nil. intros [= <-]. apply sum_counts_empty.
  - apply Forall_app in Hok as [Hl He]. rewrite Forall_singleton in He.
    rewrite sweep_events_snoc.
    destruct (sweep_events sweep_init l) as [st0|]; simpl; [|done].
    intros (counts & Hupd & Hsc & _ & Hcu & _)%sweep_event_Ok.
    rewrite Hcu, Hsc, (update_users_sum _ _ _ He Hupd), (IH st0); done.
Qed.

Lemma sum_counts_positive (counts : gmap string Z) :
  (∀ name n, counts !! name = Some n → 1 ≤ n) →
  Z.of_nat (size counts) ≤ sum_counts counts.
Proof.
  induction counts as [|name n counts Hname _ IH] using map_first_key_ind; intros Hpos.
  - by rewrite sum_counts_empty, map_size_empty.
  - rewrite sum_counts_insert_fresh, map_size_insert_None by done.
    assert (1 ≤ n) by (apply (Hpos name); by rewrite lookup_insert_eq).
    assert (Z.of_nat (size counts) ≤ sum_counts counts); [|lia].
    apply IH. intros name' n' Hn'. apply (Hpos name').
    rewrite lookup_insert_ne; [done|]. intros ->. congruence.
Qed.

(** Counts that are all positive and sum to zero: there is none. *)
Lemma sum_counts_zero (counts : gmap string Z) :
  (∀ name n, counts !! name = Some n → 1 ≤ n) → sum_counts counts = 0 → counts = ∅.
Proof.
  intros Hpos Hsum. apply map_size_empty_iff.
  pose proof (sum_counts_positive counts Hpos). lia.
Qed.

(** ** The rows written *)

Lemma sweep_events_snoc_Ok (st st' : sweep_state) (event_list : list event) (e : event) :
  sweep_events st (event_list ++ [e]) = Ok st' →
  ∃ st0, sweep_events st event_list = Ok st0 ∧ sweep_event st0 e = Ok st'.
Proof.
  rewrite sweep_events_snoc.
  destruct (sweep_events st event_list) as [st0|]; simpl; [|done]. eauto.
Qed.

Lemma sweep_events_app_Ok (st st' : sweep_state) (l1 l2 : list event) :
  sweep_events st (l1 ++ l2) = Ok st' →
  ∃ st1, sweep_events st l1 = Ok st1 ∧ sweep_events st1 l2 = Ok st'.
Proof.
  rewrite sweep_events_app.
  destruct (sweep_events st l1) as [st1|]; simpl; [|done]. eauto.
Qed.

(** Rows are only appended, one for each event. *)
Lemma sweep_events_written (st st' : sweep_state) (event_list : list event) :
  sweep_events st event_list = Ok st' →
  ∃ rows, written st' = written st ++ rows ∧ length rows = length event_list.
Proof.
  revert st'. induction event_list as [|e l IH] using rev_ind; intros st'.
  - rewrite sweep_events_nil. intros [= <-]. exists []. by rewrite app_nil_r.
  - intros (st0 & Hl & He)%sweep_events_snoc_Ok.
    destruct (IH _ Hl) as (rows & Hw & Hlen).
    apply sweep_event_Ok in He as (counts & _ & _ & _ & _ & Hw').
    eexists (rows ++ [_]). rewrite Hw', Hw, <-app_assoc. split; [done|].
    rewrite !length_app, Hlen. done.
Qed.

Lemma sweep_events_written_length (event_list : list event) (st : sweep_state) :
  sweep_events sweep_init event_list = Ok st → length (written st) = length event_list.
Proof.
  intros (rows & -> & Hlen)%sweep_events_written. done.
Qed.

(** The row of the event at position [i] is the row of the state after
    that event. *)
Lemma sweep_events_row (event_list : list event) (st : sweep_state) (i : nat) (e : event) :
  sweep_events sweep_init event_list = Ok st → event_list !! i = Some e →
  ∃ st_i, sweep_events sweep_init (take (S i) event_list) = Ok st_i ∧
    written st !! i =
    Some (ev_time e, session_count st_i, user_string (current_users st_i)).
Proof.
  intros Hst Hi.
  rewrite <-(take_drop (S i) event_list) in Hst.
  apply sweep_events_app_Ok in Hst as (st_i & Hpre & Hpost).
  exists st_i. split; [done|].
  apply sweep_events_written in Hpost as (rows & -> & _).
  rewrite (take_S_r _ _ _ Hi) in Hpre.
  apply sweep_events_snoc_Ok in Hpre as (st0 & Hpre & He).
  pose proof (sweep_events_written_length _ _ Hpre) as Hlen.
  rewrite length_take_le in Hlen by (apply lookup_lt_Some in Hi; lia).
  apply sweep_event_Ok in He as (counts & _ & Hsc & _ & Hcu & ->).
  rewrite <-app_assoc. simpl. rewrite list_lookup_middle by done.
  by rewrite Hsc, Hcu.
Qed.

(** ** Texts *)

Lemma str_app_cons (c : ascii) (s t : string) : String c s +:+ t = String c (s +:+ t).
Proof. reflexivity. Qed.

Lemma str_app_nil_l (s : string) : "" +:+ s = s.
Proof. reflexivity. Qed.

Lemma str_app_nil_r (s : string) : s +:+ "" = s.
Proof. induction s as [|c s IH]; [done|]. by rewrite str_app_cons, IH. Qed.

Lemma str_app_assoc (s t u : string) : (s +:+ t) +:+ u = s +:+ (t +:+ u).
Proof. induction s as [|c s IH]; [done|]. by rewrite !str_app_cons, IH. Qed.

(** An item of a joined list stands verbatim in the joined text. *)
Lemma str_join_elem (sep t : string) (l : list string) :
  t ∈ l → ∃ p q, str_join sep l = p +:+ t +:+ q.
Proof.
  induction l as [|s l IH]; [by intros ?%elem_of_nil|].
  intros [->|Hin]%elem_of_cons.
  - destruct l as [|s' l].
    + exists "", "". by rewrite str_app_nil_r.
    + by exists "", (sep +:+ str_join sep (s' :: l)).
  - destruct (IH Hin) as (p & q & Hpq). destruct l as [|s' l].
    + by apply elem_of_nil in Hin.
    + exists (s +:+ sep +:+ p), q.
      change (str_join sep (s :: s' :: l)) with (s +:+ sep +:+ str_join sep (s' :: l)).
      by rewrite Hpq, !str_app_assoc.
Qed.

(** The users column does not depend on the order in which the items of
    the dictionary are listed. *)
Lemma user_string_any_order (counts : gmap string Z) (tokens : list string) :
  tokens ≡ₚ user_tokens counts → str_join " " (sorted tokens) = user_string counts.
Proof. intros Hp. unfold user_string. by rewrite (sorted_perm_eq _ _ Hp). Qed.

(** The token of an entry of the dictionary stands in the users column. *)
Lemma user_string_entry (counts : gmap string Z) (name : string) (n : Z) :
  counts !! name = Some n →
  ∃ p q, user_string counts = p +:+ (name +:+ "=" +:+ pretty n) +:+ q.
Proof.
  intros Hname. apply str_join_elem. rewrite sorted_perm. unfold user_tokens.
  apply list_elem_of_fmap. exists (name, n). split; [done|].
  by apply elem_of_map_to_list.
Qed.

(** ** The event stream *)

Section StreamFacts.
Context (fromisoformat : string → result datetime).
Context (user_dict : gmap string string).

Local Abbreviation read_row := (read_row fromisoformat user_dict).
Local Abbreviation read_rows := (read_rows fromisoformat user_dict).
Local Abbreviation get_event_list := (get_event_list fromisoformat).
Local Abbreviation row_times := (row_times fromisoformat).
Local Abbreviation valid_row := (valid_row fromisoformat).
Local Abbreviation row_events := (row_events fromisoformat user_dict).

Lemma read_rows_app (event_list : list event) (rows1 rows2 : list (list string)) :
  read_rows event_list (rows1 ++ rows2) =
  (event_list' ← read_rows event_list rows1; read_rows event_list' rows2).
Proof.
  revert event_list. induction rows1 as [|row rows1 IH]; intros event_list; [done|].
  simpl. destruct (read_row event_list row); simpl; [apply IH|done].
Qed.

Lemma read_rows_shape (rows : list (list string)) (event_list event_list' : list event) :
  read_rows event_list rows = Ok event_list' →
  Forall (λ row_list, ∃ start stop user_id,
    row_times row_list = Some (start, stop) ∧ row_list !! 2%nat = Some user_id ∧
    row_events row_list = [(start, 1, display_name user_dict user_id);
                           (stop, -1, display_name user_dict user_id)])
    (filter valid_row rows).
Proof.
  revert event_list. induction rows as [|row rows IH]; intros event_list; simpl.
  - intros _. constructor.
  - destruct (read_row event_list row) as [evs|] eqn:Hrow; simpl; [|done].
    intros Hrest. rewrite filter_cons. case_decide as Hv; [|by eapply IH].
    constructor; [|by eapply IH].
    apply read_row_Ok in Hrow as (_ & _ & Hshape). by apply Hshape, Is_true_true.
Qed.

Lemma row_events_length (rows : list (list string)) :
  Forall (λ row_list, length (row_events row_list) = 2%nat) rows →
  length (rows ≫= row_events) = (2 * length rows)%nat.
Proof.
  induction 1 as [|row rows Hrow _ IH]; [done|].
  rewrite bind_cons, length_app, Hrow, IH. simpl. lia.
Qed.

Lemma row_events_times (row_list : list string) (e : event) :
  valid_row row_list = true → e ∈ row_events row_list → 2022 ≤ year (ev_time e).
Proof.
  unfold valid_row, row_events.
  destruct (row_times row_list) as [[start stop]|]; [|done].
  intros [Hs He]%bool_decide_eq_true.
  destruct (row_list !! 2%nat); [|by intros ?%elem_of_nil].
  intros [->|[->|?%elem_of_nil]%elem_of_cons]%elem_of_cons; done.
Qed.

Lemma row_events_ok (row_list : list string) : Forall event_ok (row_events row_list).
Proof.
  unfold row_events.
  destruct (row_times row_list) as [[start stop]|]; [|constructor].
  destruct (row_list !! 2%nat); [|constructor].
  apply Forall_cons. split; [by left|]. apply Forall_singleton. by right.
Qed.

Lemma row_events_sum (row_list : list string) : sum_deltas (row_events row_list) = 0.
Proof.
  unfold row_events.
  destruct (row_times row_list) as [[start stop]|]; [|done].
  by destruct (row_list !! 2%nat).
Qed.

End StreamFacts.

(** * The event stream builder: what it returns *)

(** C3. When the builder returns, the event stream has exactly two events
    for each valid record, and no others: it is a rearrangement of the
    events of the valid records, each of which gives one start event
    [(start_timestamp, +1, display_name)] and one end event
    [(end_timestamp, -1, display_name)]. *)
Theorem event_count_twice_valid (fromisoformat : string → result datetime)
    (rows : list (list string)) (user_dict : gmap string string)
    (event_list : list event) :
  get_event_list fromisoformat rows user_dict = Ok event_list →
  length event_list = (2 * length (filter (valid_row fromisoformat) rows))%nat ∧
  event_list ≡ₚ filter (valid_row fromisoformat) rows ≫= row_events fromisoformat user_dict ∧
  Forall (λ row_list, ∃ start stop user_id,
    row_times fromisoformat row_list = Some (start, stop) ∧
    row_list !! 2%nat = Some user_id ∧
    row_events fromisoformat user_dict row_list =
      [(start, 1, display_name user_dict user_id);
       (stop, -1, display_name user_dict user_id)])
    (filter (valid_row fromisoformat) rows).
Proof.
  intros Hget. pose proof (get_event_list_Ok _ _ _ _ Hget) as ->.
  unfold get_event_list in Hget.
  destruct (read_rows fromisoformat user_dict [] rows) as [evs|] eqn:Hrows; [|done].
  pose proof (read_rows_shape _ _ _ _ _ Hrows) as Hshape.
  split_and!; [|apply sorted_perm|done].
  rewrite sorted_length. apply row_events_length.
  eapply Forall_impl; [exact Hshape|].
  intros row (start & stop & user_id & _ & _ & ->). done.
Qed.

Lemma event_count_twice_valid_witness :
  get_event_list fromisoformat_seconds demo_rows demo_users = Ok demo_events ∧
  length demo_events = (2 * length (filter (valid_row fromisoformat_seconds) demo_rows))%nat.
Proof.
  assert (get_event_list fromisoformat_seconds demo_rows demo_users = Ok demo_events)
    as Hget by (vm_compute; reflexivity).
  split; [exact Hget|].
  exact (proj1 (event_count_twice_valid _ _ _ _ Hget)).
Defined.

(** C5. A record is valid only if both years are 2022 or later.  A record
    with either year before 2022 is dropped before its events are made: its
    turn of the loop leaves the event list as it was, the stream is the one
    built without the record, and no event of the stream is dated before
    2022. *)
Theorem invalid_record_dropped (fromisoformat : string → result datetime)
    (user_dict : gmap string string) (row_list : list string)
    (start stop : datetime) :
  row_times fromisoformat row_list = Some (start, stop) →
  year start < 2022 ∨ year stop < 2022 →
  valid_row fromisoformat row_list = false ∧
  (∀ event_list, read_row fromisoformat user_dict event_list row_list = Ok event_list) ∧
  (∀ rows1 rows2,
     get_event_list fromisoformat (rows1 ++ row_list :: rows2) user_dict =
     get_event_list fromisoformat (rows1 ++ rows2) user_dict) ∧
  (∀ rows event_list,
     get_event_list fromisoformat rows user_dict = Ok event_list →
     Forall (λ e, 2022 ≤ year (ev_time e)) event_list) ∧
  (∀ row_list', valid_row fromisoformat row_list' = true →
     ∃ start' stop', row_times fromisoformat row_list' = Some (start', stop') ∧
       2022 ≤ year start' ∧ 2022 ≤ year stop').
Proof.
  intros Ht Hyear.
  assert (∀ event_list, read_row fromisoformat user_dict event_list row_list = Ok event_list)
    as Hrow.
  { intros event_list. rewrite read_row_unfold.
    destruct row_list as [|s [|e rest]]; try done. simpl in Ht |- *.
    destruct (fromisoformat (split_head "+" s)) as [a|]; [|done].
    destruct (fromisoformat (split_head "+" e)) as [b|]; [|done].
    simplify_eq/=. repeat case_bool_decide; simpl; try done; lia. }
  split_and!.
  - rewrite (valid_row_years _ _ _ _ Ht).
    repeat case_bool_decide; simpl; try done; lia.
  - done.
  - intros rows1 rows2. unfold get_event_list. rewrite !read_rows_app.
    destruct (read_rows fromisoformat user_dict [] rows1) as [evs|]; simpl; [|done].
    by rewrite Hrow.
  - intros rows event_list ->%get_event_list_Ok.
    apply Forall_forall. intros e. rewrite sorted_perm.
    intros (row & He & [Hv _]%list_elem_of_filter)%list_elem_of_bind.
    eapply row_events_times; [|done]. by apply Is_true_true.
  - intros row'. unfold valid_row.
    destruct (row_times fromisoformat row') as [[a b]|]; [|done].
    intros [??]%bool_decide_eq_true. eauto.
Qed.

Lemma invalid_record_dropped_witness :
  row_times fromisoformat_seconds old_row = Some (old_start, at_time 10 45) ∧
  (year old_start < 2022 ∨ year (at_time 10 45) < 2022) ∧
  valid_row fromisoformat_seconds old_row = false.
Proof.
  assert (row_times fromisoformat_seconds old_row = Some (old_start, at_time 10 45))
    as Ht by reflexivity.
  assert (year old_start < 2022 ∨ year (at_time 10 45) < 2022)
    as Hyear by (left; simpl; lia).
  split; [exact Ht|]. split; [exact Hyear|].
  exact (proj1 (invalid_record_dropped fromisoformat_seconds demo_users
                  old_row old_start (at_time 10 45) Ht Hyear)).
Defined.

(** C9. A valid record whose user identifier is not in the directory raises
    nothing: its two events carry the identifier itself as display name,
    they are in the stream, and the row written for the start event shows
    the identifier, as [user_id=count], in its users column. *)
Theorem lookup_miss_uses_user_id (fromisoformat : string → result datetime)
    (user_dict : gmap string string) (row_list : list string)
    (start stop : datetime) (user_id : string) :
  row_times fromisoformat row_list = Some (start, stop) →
  valid_row fromisoformat row_list = true →
  row_list !! 2%nat = Some user_id →
  user_dict !! user_id = None →
  (∀ event_list,
     read_row fromisoformat user_dict event_list row_list =
     Ok (event_list ++ [(start, 1, user_id); (stop, -1, user_id)])) ∧
  (∀ rows event_list,
     row_list ∈ rows → get_event_list fromisoformat rows user_dict = Ok event_list →
     (start, 1, user_id) ∈ event_list ∧ (stop, -1, user_id) ∈ event_list) ∧
  (∀ st, ∃ st' n p q,
     sweep_event st (start, 1, user_id) = Ok st' ∧
     current_users st' !! user_id = Some n ∧
     last (written st') =
       Some (start, session_count st', p +:+ (user_id +:+ "=" +:+ pretty n) +:+ q)).
Proof.
  intros Ht Hv Huid Hmiss.
  assert (row_events fromisoformat user_dict row_list =
          [(start, 1, user_id); (stop, -1, user_id)]) as Hev.
  { unfold row_events, display_name. by rewrite Ht, Huid, Hmiss. }
  split_and!.
  - intros event_list. rewrite read_row_unfold.
    rewrite (valid_row_years _ _ _ _ Ht) in Hv. apply negb_true_iff in Hv.
    destruct row_list as [|s [|e [|u rest]]]; try done. simpl in Ht, Huid |- *.
    destruct (fromisoformat (split_head "+" s)) as [a|]; [|done].
    destruct (fromisoformat (split_head "+" e)) as [b|]; [|done].
    simplify_eq/=. rewrite Hv. unfold display_name. by rewrite Hmiss.
  - intros rows event_list Hin ->%get_event_list_Ok.
    assert (∀ e, e ∈ row_events fromisoformat user_dict row_list →
                 e ∈ sorted (filter (valid_row fromisoformat) rows
                             ≫= row_events fromisoformat user_dict)) as Hsub.
    { intros e He. rewrite sorted_perm. apply list_elem_of_bind.
      exists row_list. split; [done|]. apply list_elem_of_filter.
      split; [by apply Is_true_true|done]. }
    rewrite Hev in Hsub. split; apply Hsub; set_solver.
  - intros st. rewrite sweep_event_start.
    set (n := count_of (current_users st) user_id + 1).
    set (counts := <[user_id := n]> (current_users st)).
    assert (counts !! user_id = Some n) as Hn by apply lookup_insert_eq.
    destruct (user_string_entry counts user_id n Hn) as (p & q & Hpq).
    eexists _, n, p, q. split; [done|]. simpl. split; [done|].
    by rewrite last_snoc, Hpq.
Qed.

Lemma lookup_miss_uses_user_id_witness :
  row_times fromisoformat_seconds stranger_row = Some (at_time 10 50, at_time 10 55) ∧
  valid_row fromisoformat_seconds stranger_row = true ∧
  stranger_row !! 2%nat = Some "u9" ∧
  demo_users !! "u9" = None ∧
  read_row fromisoformat_seconds demo_users [] stranger_row =
    Ok [(at_time 10 50, 1, "u9"); (at_time 10 55, -1, "u9")].
Proof.
  assert (row_times fromisoformat_seconds stranger_row =
          Some (at_time 10 50, at_time 10 55)) as Ht by reflexivity.
  assert (valid_row fromisoformat_seconds stranger_row = true) as Hv by reflexivity.
  assert (stranger_row !! 2%nat = Some "u9") as Hu by reflexivity.
  assert (demo_users !! "u9" = None) as Hmiss by (vm_compute; reflexivity).
  split_and!; [exact Ht|exact Hv|exact Hu|exact Hmiss|].
  exact (proj1 (lookup_miss_uses_user_id fromisoformat_seconds demo_users stranger_row
                  (at_time 10 50) (at_time 10 55) "u9" Ht Hv Hu Hmiss) []).
Defined.

(** C8 as stated does not hold: a row of two fields, whose
    date-times parse and are of 2023, has fewer fields than the schema and
    is not tolerated; its turn of the loop raises [KeyError] on [user_id]. *)
Lemma short_row_not_tolerated :
  ¬ (∀ row_list : list string,
       (length row_list < 5)%nat →
       is_Some (row_times fromisoformat_seconds row_list) →
       ∃ event_list,
         read_row fromisoformat_seconds demo_users [] row_list = Ok event_list).
Proof.
  intros Hall.
  destruct (Hall two_field_row) as [event_list Hrow].
  - simpl. lia.
  - by eexists.
  - vm_compute in Hrow. discriminate Hrow.
Qed.

(** C8, amended.  A row that has its three leading fields is processed as
    the same row with any trailing fields added: the fields after [user_id]
    are not read.  So a row of three or four fields whose date-times parse
    is processed without error. *)
Theorem short_row_tolerated (fromisoformat : string → result datetime)
    (user_dict : gmap string string) (event_list : list event)
    (row_list : list string) :
  (3 ≤ length row_list)%nat →
  (∀ trailing,
     read_row fromisoformat user_dict event_list (row_list ++ trailing) =
     read_row fromisoformat user_dict event_list row_list) ∧
  (is_Some (row_times fromisoformat row_list) →
   ∃ event_list', read_row fromisoformat user_dict event_list row_list = Ok event_list').
Proof.
  intros Hlen. destruct row_list as [|s [|e [|u rest]]]; simpl in Hlen; try lia.
  split.
  - intros trailing. by rewrite !read_row_unfold.
  - intros [[start stop] Ht]. rewrite read_row_unfold. simpl in Ht |- *.
    destruct (fromisoformat (split_head "+" s)) as [a|]; [|done].
    destruct (fromisoformat (split_head "+" e)) as [b|]; [|done].
    simpl. destruct (_ || _); eauto.
Qed.

Lemma short_row_tolerated_witness :
  (3 ≤ length stranger_row)%nat ∧
  read_row fromisoformat_seconds demo_users [] (stranger_row ++ ["obj"]) =
  read_row fromisoformat_seconds demo_users [] stranger_row.
Proof.
  assert (3 ≤ length stranger_row)%nat as Hlen by (simpl; lia).
  split; [exact Hlen|].
  exact (proj1 (short_row_tolerated fromisoformat_seconds demo_users [] stranger_row Hlen)
           ["obj"]).
Defined.

(** * The order of the stream *)


Lemma event_lt_unfold (t1 t2 : datetime) (d1 d2 : Z) (n1 n2 : string) :
  py_lt (A := event) (t1, d1, n1) (t2, d2, n2) =
  if decide (t1 = t2) then if decide (d1 = d2) then py_lt n1 n2 else py_lt d1 d2
  else py_lt t1 t2.
Proof. done. Qed.









(** * The occupancy sweep: rows, exceptions, totals *)

Lemma write_rows_of_loop (event_list : list event) :
  (write_session_count_csv_file event_list).1 =
  written (sweep_loop sweep_init event_list).1.
Proof.
  unfold write_session_count_csv_file.
  by destruct (sweep_loop sweep_init event_list) as [st [err|]].
Qed.

Lemma sweep_loop_stops (done_list rest : list event) (st : sweep_state) :
  sweep_events sweep_init done_list = Ok st →
  (rest = [] ∨ ∃ e rest' err, rest = e :: rest' ∧ sweep_event st e = Raise err) →
  (sweep_loop sweep_init (done_list ++ rest)).1 = st.
Proof.
  intros Hdone [->|(e & rest' & err & -> & He)].
  - rewrite app_nil_r. apply sweep_loop_None in Hdone. by rewrite Hdone.
  - assert (sweep_loop sweep_init (done_list ++ e :: rest') = (st, Some err)) as ->; [|done].
    apply sweep_loop_Some. eauto 10.
Qed.

(** C4 as stated does not hold: on the stream the builder returns
    for a session that starts and ends at the same time, the end event
    comes first and raises; no row is written for two events. *)
Lemma row_per_event_fails :
  ¬ (∀ rows event_list,
       get_event_list fromisoformat_seconds rows demo_users = Ok event_list →
       length (write_session_count_csv_file event_list).1 = length event_list).
Proof.
  intros Hall.
  assert (get_event_list fromisoformat_seconds instant_rows demo_users = Ok instant_events)
    as Hget by (vm_compute; reflexivity).
  apply Hall in Hget. vm_compute in Hget. discriminate Hget.
Qed.

(** C4, amended.  The sweep writes one row for each event it sweeps, in
    the order of the stream: the row at a position is the row of the event
    at that position, with the total and the users after that event.  On a
    stream no event of which raises, that is one row for each event of the
    stream; when an event raises, the rows are those of the events before
    it. *)
Theorem row_per_event (done_list rest : list event) (st : sweep_state) :
  sweep_events sweep_init done_list = Ok st →
  (rest = [] ∨ ∃ e rest' err, rest = e :: rest' ∧ sweep_event st e = Raise err) →
  let rows := (write_session_count_csv_file (done_list ++ rest)).1 in
  length rows = length done_list ∧
  row_time <$> rows = ev_time <$> done_list ∧
  ∀ i e, done_list !! i = Some e →
    ∃ st_i, sweep_events sweep_init (take (S i) done_list) = Ok st_i ∧
      rows !! i = Some (ev_time e, session_count st_i, user_string (current_users st_i)).
Proof.
  intros Hdone Hrest. simpl.
  rewrite write_rows_of_loop, (sweep_loop_stops _ _ _ Hdone Hrest).
  split_and!.
  - by apply sweep_events_written_length.
  - by apply sweep_events_inv in Hdone as [_ _ _ Htimes].
  - intros i e Hi. by apply sweep_events_row.
Qed.

Lemma row_per_event_witness :
  sweep_events sweep_init demo_events =
    Ok (sweep_loop sweep_init demo_events).1 ∧
  length (write_session_count_csv_file (demo_events ++ [])).1 = length demo_events.
Proof.
  assert (sweep_events sweep_init demo_events = Ok (sweep_loop sweep_init demo_events).1)
    as Hdone by (vm_compute; reflexivity).
  split; [exact Hdone|].
  exact (proj1 (row_per_event demo_events [] _ Hdone (or_introl eq_refl))).
Defined.

(** C6. An end event for a name that has no entry in [current_users], which
    is a name with as many end events as start events so far, raises
    [KeyError]: the turn of the loop raises, the loop stops there, the
    function ends with the exception, and the file keeps the rows written
    before.  The event is not skipped and no count is set to zero. *)
Theorem end_without_entry_raises (done_list rest : list event) (st : sweep_state)
    (t : datetime) (name : string) :
  sweep_events sweep_init done_list = Ok st →
  current_users st !! name = None →
  starts_of name done_list = ends_of name done_list ∧
  sweep_event st (t, -1, name) = Raise (KeyError name) ∧
  sweep_loop sweep_init (done_list ++ (t, -1, name) :: rest) = (st, Some (KeyError name)) ∧
  write_session_count_csv_file (done_list ++ (t, -1, name) :: rest) =
    (written st, Raise (KeyError name)) ∧
  length (written st) = length done_list.
Proof.
  intros Hdone Hname.
  pose proof (sweep_event_end_absent st t name Hname) as He.
  assert (sweep_loop sweep_init (done_list ++ (t, -1, name) :: rest) =
          (st, Some (KeyError name))) as Hloop.
  { apply sweep_loop_Some. eauto 10. }
  split_and!; [|done|done| |by apply sweep_events_written_length].
  - apply sweep_events_inv in Hdone as [_ Hcnt _ _]. specialize (Hcnt name).
    unfold count_of in Hcnt. rewrite Hname in Hcnt. simpl in Hcnt. lia.
  - unfold write_session_count_csv_file. by rewrite Hloop.
Qed.

Lemma end_without_entry_raises_witness :
  sweep_events sweep_init (take 3 demo_events) =
    Ok (sweep_loop sweep_init (take 3 demo_events)).1 ∧
  current_users (sweep_loop sweep_init (take 3 demo_events)).1 !! "Bob" = None ∧
  sweep_event (sweep_loop sweep_init (take 3 demo_events)).1 (at_time 10 46, -1, "Bob") =
    Raise (KeyError "Bob").
Proof.
  assert (sweep_events sweep_init (take 3 demo_events) =
          Ok (sweep_loop sweep_init (take 3 demo_events)).1) as Hdone
    by (vm_compute; reflexivity).
  assert (current_users (sweep_loop sweep_init (take 3 demo_events)).1 !! "Bob" = None)
    as Hname by (vm_compute; reflexivity).
  split; [exact Hdone|]. split; [exact Hname|].
  exact (proj1 (proj2
    (end_without_entry_raises (take 3 demo_events) [] _ (at_time 10 46) "Bob"
       Hdone Hname))).
Defined.

(** An entry is absent exactly when the name has as many end events as
    start events among the events swept. *)
Lemma no_entry_iff_balanced (done_list : list event) (st : sweep_state) (name : string) :
  sweep_events sweep_init done_list = Ok st →
  current_users st !! name = None ↔ starts_of name done_list = ends_of name done_list.
Proof.
  intros [_ Hcnt Hpos _]%sweep_events_inv. specialize (Hcnt name).
  unfold count_of in Hcnt. split.
  - intros Hname. rewrite Hname in Hcnt. simpl in Hcnt. lia.
  - intros Heq. destruct (current_users st !! name) as [n|] eqn:Hn; [|done].
    apply Hpos in Hn. simpl in Hcnt. lia.
Qed.

(** C7. On the empty stream, which is what the builder returns for no
    rows, the function writes no row and then raises [IndexError]: the
    summary line reads [event_list[0]] without a guard. *)
Theorem empty_stream_raises :
  write_session_count_csv_file [] = ([], Raise IndexError) ∧
  ∀ fromisoformat user_dict, get_event_list fromisoformat [] user_dict = Ok [].
Proof. split; reflexivity. Qed.

(** The events of the builder are starts and ends, and their deltas sum to
    zero: each record gives one of each. *)
Lemma builder_events_paired (fromisoformat : string → result datetime)
    (rows : list (list string)) (user_dict : gmap string string)
    (event_list : list event) :
  get_event_list fromisoformat rows user_dict = Ok event_list →
  Forall event_ok event_list ∧ sum_deltas event_list = 0.
Proof.
  intros ->%get_event_list_Ok. split.
  - apply Forall_forall. intros e. rewrite sorted_perm.
    intros (row & He & _)%list_elem_of_bind.
    by eapply Forall_forall; [apply row_events_ok|].
  - rewrite (sum_deltas_perm _ _ (sorted_perm _)).
    induction (filter _ rows) as [|row l IH]; [done|].
    by rewrite bind_cons, sum_deltas_app, row_events_sum, IH.
Qed.

(** C10. On a stream of start and end events, after every event swept
    without an exception the running total is the sum of the counts in
    [current_users].  So when the deltas of the whole stream sum to zero, as
    they do for the stream of the builder, where each record gives a start
    and an end, and the last event is swept, the total is zero and
    [current_users] is empty. *)
Theorem total_is_sum_of_counts (event_list : list event) :
  Forall event_ok event_list →
  (∀ k st,
     sweep_events sweep_init (take k event_list) = Ok st →
     session_count st = sum_counts (current_users st)) ∧
  (sum_deltas event_list = 0 →
   ∀ st, sweep_events sweep_init event_list = Ok st →
     session_count st = 0 ∧ sum_counts (current_users st) = 0 ∧ current_users st = ∅).
Proof.
  intros Hok. split.
  - intros k st Hst. symmetry. apply (sweep_events_sum (take k event_list)); [|done].
    by apply Forall_take.
  - intros Hsum st Hst.
    pose proof (sweep_events_sum _ _ Hok Hst) as Hcounts.
    apply sweep_events_inv in Hst as [Htot _ Hpos _].
    assert (session_count st = 0) as Hzero by lia.
    split_and!; [done|lia|]. apply sum_counts_zero; [done|lia].
Qed.

Lemma total_is_sum_of_counts_witness :
  Forall event_ok demo_events ∧
  session_count (sweep_loop sweep_init demo_events).1 =
  sum_counts (current_users (sweep_loop sweep_init demo_events).1).
Proof.
  assert (Forall event_ok demo_events) as Hok.
  { unfold demo_events.
    repeat (apply Forall_cons_2; [first [by left|by right]|]). apply Forall_nil_2. }
  split; [exact Hok|].
  apply (proj1 (total_is_sum_of_counts demo_events Hok) (length demo_events)).
  vm_compute. reflexivity.
Defined.

(** * Sessions behind the events *)

(** ** The sort moves the marks with the events *)

Lemma insort_fmap {A B} (f : A → B) (lt : B → B → bool) (x : A) (l : list A) :
  f <$> insort (λ a b, lt (f a) (f b)) x l = insort lt (f x) (f <$> l).
Proof.
  induction l as [|y l IH]; [done|]. csimpl.
  destruct (lt (f x) (f y)); [done|]. csimpl. by rewrite IH.
Qed.

Lemma insort_all_fmap {A B} (f : A → B) (lt : B → B → bool) (l acc : list A) :
  f <$> foldl (λ acc x, insort (λ a b, lt (f a) (f b)) x acc) acc l =
  foldl (λ acc y, insort lt y acc) (f <$> acc) (f <$> l).
Proof.
  revert acc. induction l as [|x l IH]; intros acc; [done|].
  csimpl. by rewrite IH, insort_fmap.
Qed.

Lemma sorted_by_fmap {A B} (f : A → B) (lt : B → B → bool) (l : list A) :
  f <$> sorted_by (λ a b, lt (f a) (f b)) l = sorted_by lt (f <$> l).
Proof. unfold sorted_by. by rewrite insort_all_fmap. Qed.

Lemma marked_from_events (i : nat) (ss : list session) :
  (marked_from i ss).*1 = ss ≫= session_events.
Proof.
  revert i. induction ss as [|s ss IH]; intros i; [done|].
  simpl. by rewrite IH.
Qed.

(** Without the marks, the marked stream is the stream. *)
Lemma marked_stream_events (ss : list session) :
  (marked_stream ss).*1 = sorted (ss ≫= session_events).
Proof.
  unfold marked_stream, marked_events, sorted.
  by rewrite (sorted_by_fmap fst py_lt), marked_from_events.
Qed.

Lemma marked_stream_perm (ss : list session) : marked_stream ss ≡ₚ marked_events ss.
Proof. apply (sorted_by_perm_acc (A := event * mark) _ _ []). Qed.

(** ** The marks of a stretch of the stream *)

Lemma marked_from_elem (i : nat) (ss : list session) (e : event) (j : nat) (sd : side) :
  (e, (j, sd)) ∈ marked_from i ss ↔
  ∃ s, ss !! (j - i)%nat = Some s ∧ (i ≤ j)%nat ∧
       e = match sd with Start => session_start s | Stop => session_stop s end.
Proof.
  revert i. induction ss as [|s ss IH]; intros i; simpl.
  - split; [by intros ?%elem_of_nil|]. by intros (s & ? & _).
  - rewrite !elem_of_cons, IH. split.
    + intros [[= -> -> ->]|[[= -> -> ->]|(s' & Hs' & Hle & ->)]].
      * exists s. by rewrite Nat.sub_diag.
      * exists s. by rewrite Nat.sub_diag.
      * exists s'. replace (j - i)%nat with (S (j - S i)) by lia.
        split_and!; [done|lia|done].
    + intros (s' & Hs' & Hle & ->).
      destruct (decide (j = i)) as [->|Hne].
      * rewrite Nat.sub_diag in Hs'. simplify_eq/=. destruct sd; auto.
      * right; right. exists s'.
        replace (j - i)%nat with (S (j - S i)) in Hs' by lia.
        split_and!; [done|lia|done].
Qed.

Lemma marked_events_elem (ss : list session) (e : event) (j : nat) (sd : side) :
  (e, (j, sd)) ∈ marked_events ss ↔
  ∃ s, ss !! j = Some s ∧
       e = match sd with Start => session_start s | Stop => session_stop s end.
Proof.
  unfold marked_events. rewrite marked_from_elem, Nat.sub_0_r.
  split; intros (s & ?); exists s; intuition lia.
Qed.

Lemma marked_from_NoDup (i : nat) (ss : list session) : NoDup (marked_from i ss).*2.
Proof.
  revert i. induction ss as [|s ss IH]; intros i; simpl; [constructor|].
  assert (∀ sd, (i, sd) ∉ (marked_from (S i) ss).*2) as Hfresh.
  { intros sd ([e [j sd']] & [= <- <-] & Hin)%list_elem_of_fmap.
    apply marked_from_elem in Hin as (s' & _ & Hle & _). lia. }
  constructor; [|constructor; [apply Hfresh|apply IH]].
  rewrite not_elem_of_cons. split; [done|apply Hfresh].
Qed.

Section Marks.
Context (ss : list session) (k : nat).

Local Abbreviation done_list := (take k (marked_stream ss)).

Lemma done_marks_NoDup : NoDup done_list.*2.
Proof.
  rewrite fmap_take. apply (sublist_NoDup _ (marked_stream ss).*2); [|apply sublist_take].
  rewrite marked_stream_perm. apply marked_from_NoDup.
Qed.

Lemma done_elem (e : event) (j : nat) (sd : side) :
  (e, (j, sd)) ∈ done_list →
  ∃ s, ss !! j = Some s ∧
       e = match sd with Start => session_start s | Stop => session_stop s end.
Proof.
  intros Hin%subseteq_take. rewrite marked_stream_perm in Hin.
  by apply marked_events_elem.
Qed.

End Marks.

(** ** Counting marks *)

Lemma length_filter_fmap {A B} (f : A → B) (P : B → Prop) `{∀ y, Decision (P y)}
    (l : list A) :
  length (filter P (f <$> l)) = length (filter (λ x, P (f x)) l).
Proof.
  induction l as [|x l IH]; [done|]. csimpl.
  rewrite !filter_cons. case_decide; simpl; by rewrite IH.
Qed.

Lemma filter_ext_elem {A} (P Q : A → Prop) `{∀ x, Decision (P x)} `{∀ x, Decision (Q x)}
    (l : list A) :
  (∀ x, x ∈ l → P x ↔ Q x) → filter P l = filter Q l.
Proof.
  induction l as [|x l IH]; intros Hext; [done|].
  rewrite !filter_cons, IH by (intros y Hy; apply Hext; by right).
  pose proof (Hext x ltac:(by left)).
  repeat case_decide; tauto || done.
Qed.

(** The marks of a side whose session satisfies [P] are as many as the
    sessions that satisfy [P] and have that mark. *)
Lemma count_marks (P : nat → Prop) `{∀ i, Decision (P i)} (sd : side)
    (ms : list mark) (n : nat) :
  NoDup ms → (∀ i, P i → (i < n)%nat) →
  length (filter (λ m, m.2 = sd ∧ P m.1) ms) =
  length (filter (λ i, P i ∧ (i, sd) ∈ ms) (seq 0 n)).
Proof.
  intros Hnd Hbound.
  rewrite <-(length_fmap fst (filter _ ms)). apply Permutation_length.
  apply NoDup_Permutation.
  - apply NoDup_fmap_2_strong; [|by apply NoDup_filter].
    intros [i1 s1] [i2 s2] [[??] _]%list_elem_of_filter [[??] _]%list_elem_of_filter ?.
    simplify_eq/=. done.
  - apply NoDup_filter, NoDup_seq.
  - intros i. rewrite list_elem_of_fmap, list_elem_of_filter, elem_of_seq. split.
    + intros ([j s] & -> & [[??] ?]%list_elem_of_filter). simplify_eq/=.
      split_and!; [done..|lia|]. by apply Hbound.
    + intros [[HP Hin] _]. exists (i, sd). split; [done|].
      by apply list_elem_of_filter.
Qed.

Lemma filter_none {A} (P : A → Prop) `{∀ x, Decision (P x)} (l : list A) :
  (∀ x, x ∈ l → ¬ P x) → filter P l = [].
Proof.
  induction l as [|x l IH]; intros Hnone; [done|].
  rewrite filter_cons_False by (apply Hnone; by left).
  apply IH. intros y Hy. apply Hnone. by right.
Qed.

Lemma count_difference {A} (P S E : A → Prop)
    `{∀ x, Decision (P x)} `{∀ x, Decision (S x)} `{∀ x, Decision (E x)} (l : list A) :
  Z.of_nat (length (filter (λ x, P x ∧ S x) l))
  - Z.of_nat (length (filter (λ x, P x ∧ E x) l)) =
  Z.of_nat (length (filter (λ x, P x ∧ S x ∧ ¬ E x) l))
  - Z.of_nat (length (filter (λ x, P x ∧ E x ∧ ¬ S x) l)).
Proof.
  induction l as [|x l IH]; [done|].
  rewrite !filter_cons. repeat case_decide; simpl; try lia; tauto.
Qed.

Section MarkCounts.
Context (ss : list session) (k : nat) (name : string).

Local Abbreviation done_list := (take k (marked_stream ss)).

Lemma done_event_side (d : Z) (sd : side) :
  d = match sd with Start => 1 | Stop => -1 end →
  length (filter (λ e, ev_delta e = d ∧ ev_name e = name) done_list.*1) =
  length (filter (λ i, name_at ss i = Some name ∧ fired done_list (i, sd))
            (seq 0 (length ss))).
Proof.
  intros Hd.
  transitivity (length (filter (λ m : mark, m.2 = sd ∧ name_at ss m.1 = Some name)
                          done_list.*2)).
  - rewrite !length_filter_fmap. f_equal. apply filter_ext_elem.
    intros [e [j sd']] (s & Hs & He)%done_elem. unfold name_at. simpl.
    rewrite Hs. simpl. subst e d.
    destruct sd, sd'; unfold ev_delta, ev_name, session_start, session_stop,
      session_name; simpl; split; intros [??]; split; congruence || lia || done.
  - assert (∀ i, name_at ss i = Some name → (i < length ss)%nat) as Hbound.
    { unfold name_at. intros i Hi. apply fmap_Some in Hi as (s & Hs & _).
      by apply lookup_lt_Some in Hs. }
    exact (count_marks (λ i, name_at ss i = Some name) sd done_list.*2 (length ss)
             (done_marks_NoDup ss k) Hbound).
Qed.

Lemma done_starts :
  starts_of name done_list.*1 =
  length (filter (λ i, name_at ss i = Some name ∧ fired done_list (i, Start))
            (seq 0 (length ss))).
Proof. by apply (done_event_side 1 Start). Qed.

Lemma done_ends :
  ends_of name done_list.*1 =
  length (filter (λ i, name_at ss i = Some name ∧ fired done_list (i, Stop))
            (seq 0 (length ss))).
Proof. by apply (done_event_side (-1) Stop). Qed.

(** Start events less end events: sessions open less sessions ended
    before they started. *)
Lemma done_balance :
  Z.of_nat (starts_of name done_list.*1) - Z.of_nat (ends_of name done_list.*1) =
  Z.of_nat (open_sessions ss done_list name)
  - Z.of_nat (ended_unstarted ss done_list name).
Proof.
  rewrite done_starts, done_ends. unfold open_sessions, ended_unstarted.
  apply (count_difference (λ i, name_at ss i = Some name)
           (λ i, fired done_list (i, Start)) (λ i, fired done_list (i, Stop))).
Qed.

End MarkCounts.

(** ** The stream of the builder is the stream of its sessions *)




(** ** Sessions that end after they start *)

Lemma StronglySorted_fmap_inv {A B} (f : A → B) (R : relation B) (l : list A) :
  StronglySorted R (f <$> l) → StronglySorted (λ a b, R (f a) (f b)) l.
Proof.
  induction l as [|x l IH]; csimpl; [constructor|].
  intros [Hl Hx]%StronglySorted_inv. constructor; [by apply IH|].
  apply Forall_forall. intros y Hy. rewrite Forall_forall in Hx.
  by apply Hx, list_elem_of_fmap_2.
Qed.

Lemma marked_stream_sorted (ss : list session) :
  StronglySorted (λ a b : event * mark, py_le a.1 b.1) (marked_stream ss).
Proof.
  apply StronglySorted_fmap_inv. rewrite marked_stream_events.
  apply sorted_StronglySorted.
Qed.

Lemma session_start_before_stop (s : session) :
  py_lt s.1.1 s.1.2 = true → py_lt (session_start s) (session_stop s) = true.
Proof.
  destruct s as [[t1 t2] name]. unfold session_start, session_stop. simpl.
  intros Hlt. rewrite event_lt_unfold. case_decide as Heq; [|done].
  subst. by rewrite py_lt_irrefl in Hlt.
Qed.

(** When every session ends after it starts, no end event fires before
    the start event of its session. *)
Lemma ordered_sessions_fire_in_order (ss : list session) (k i : nat) :
  Forall (λ s : session, py_lt s.1.1 s.1.2 = true) ss →
  fired (take k (marked_stream ss)) (i, Stop) →
  fired (take k (marked_stream ss)) (i, Start).
Proof.
  intros Hss ([e [j sd]] & [= <- <-] & Hstop)%list_elem_of_fmap.
  destruct (done_elem _ _ _ _ _ Hstop) as (s & Hs & ->).
  assert ((session_start s, (i, Start)) ∈ marked_stream ss) as Hstart.
  { rewrite marked_stream_perm. apply marked_events_elem. eauto. }
  rewrite <-(take_drop k (marked_stream ss)) in Hstart.
  apply elem_of_app in Hstart as [Hstart|Hstart].
  { apply list_elem_of_fmap. by exists (session_start s, (i, Start)). }
  pose proof (marked_stream_sorted ss) as Hsorted.
  rewrite <-(take_drop k (marked_stream ss)) in Hsorted.
  pose proof (StronglySorted_app_1_elem_of _ _ _ _ _ Hsorted Hstop Hstart) as Hle.
  unfold py_le in Hle. simpl in Hle.
  rewrite session_start_before_stop in Hle; [done|].
  rewrite Forall_forall in Hss. apply Hss. by eapply list_elem_of_lookup_2.
Qed.

Lemma ended_unstarted_zero (ss : list session) (done_list : list (event * mark))
    (name : string) :
  (∀ i, fired done_list (i, Stop) → fired done_list (i, Start)) →
  ended_unstarted ss done_list name = 0%nat.
Proof.
  intros Horder. unfold ended_unstarted. rewrite filter_none; [done|].
  intros i _ (_ & Hstop & Hstart). by apply Hstart, Horder.
Qed.

(** The counts after a stretch of the stream, by its marks. *)
Lemma sweep_counts_marks (ss : list session) (k : nat) (st : sweep_state) (name : string) :
  sweep_events sweep_init (take k (sorted (ss ≫= session_events))) = Ok st →
  count_of (current_users st) name =
  Z.of_nat (open_sessions ss (take k (marked_stream ss)) name)
  - Z.of_nat (ended_unstarted ss (take k (marked_stream ss)) name).
Proof.
  rewrite <-marked_stream_events, <-fmap_take.
  intros [_ Hcnt _ _]%sweep_events_inv. rewrite Hcnt. apply done_balance.
Qed.




(** * The active users and the open sessions *)

(** C2 as stated does not hold.  For the two sessions of
    [backward_rows] the builder returns the stream 10:00 start, 11:00 end,
    11:30 start, 12:00 end.  After the first two events nothing has been
    raised and the name has no entry, while the session started at 10:00 has
    not ended. *)
Lemma active_users_not_open_sessions :
  ¬ (∀ (rows : list (list string)) (k : nat) (st : sweep_state) (name : string),
       let ss := sessions_of fromisoformat_seconds rows demo_users in
       sweep_events sweep_init (take k (sorted (ss ≫= session_events))) = Ok st →
       count_of (current_users st) name =
       Z.of_nat (open_sessions ss (take k (marked_stream ss)) name)).
Proof.
  intros Hall.
  pose proof (Hall backward_rows 2%nat
    {| session_count := 0; max_session_count := 1; current_users := ∅;
       written := [(at_time 10 0, 1, "Alice=1"); (at_time 11 0, 0, "")] |}
    "Alice") as Hone.
  cbv zeta in Hone.
  assert (sweep_events sweep_init
            (take 2 (sorted (sessions_of fromisoformat_seconds backward_rows demo_users
                             ≫= session_events))) =
          Ok {| session_count := 0; max_session_count := 1; current_users := ∅;
                written := [(at_time 10 0, 1, "Alice=1"); (at_time 11 0, 0, "")] |})
    as Hst by (vm_compute; reflexivity).
  specialize (Hone Hst). vm_compute in Hone. discriminate Hone.
Qed.

(** C2, amended.  After every stretch of the stream swept without an
    exception, the count of a name in [current_users], 0 when the name has
    no entry, is the number of start events of the name less the number of
    its end events so far; that is the number of the sessions of that name
    whose start event has fired and whose end event has not, less the number
    of its sessions whose end event has fired and whose start event has not.
    When no session has its end event fired before its start event, as when
    every session ends after it starts, it is the number of open sessions of
    the name.  Every entry is 1 or more: a name whose count is 0 has no
    entry. *)
Theorem active_users_counts (ss : list session) (k : nat) (st : sweep_state) :
  sweep_events sweep_init (take k (sorted (ss ≫= session_events))) = Ok st →
  let done_list := take k (marked_stream ss) in
  (∀ name n, current_users st !! name = Some n → 1 ≤ n) ∧
  (∀ name, count_of (current_users st) name = 0 ↔ current_users st !! name = None) ∧
  (∀ name,
     count_of (current_users st) name =
     Z.of_nat (starts_of name (take k (sorted (ss ≫= session_events))))
     - Z.of_nat (ends_of name (take k (sorted (ss ≫= session_events))))) ∧
  (∀ name,
     count_of (current_users st) name =
     Z.of_nat (open_sessions ss done_list name)
     - Z.of_nat (ended_unstarted ss done_list name)) ∧
  ((∀ i, fired done_list (i, Stop) → fired done_list (i, Start)) →
   ∀ name, count_of (current_users st) name = Z.of_nat (open_sessions ss done_list name)) ∧
  (Forall (λ s : session, py_lt s.1.1 s.1.2 = true) ss →
   ∀ name, count_of (current_users st) name = Z.of_nat (open_sessions ss done_list name)).
Proof.
  intros Hst done_list.
  pose proof (λ name, sweep_counts_marks ss k st name Hst) as Hbal.
  apply sweep_events_inv in Hst as [_ Hcnt Hpos _].
  assert ((∀ i, fired done_list (i, Stop) → fired done_list (i, Start)) →
          ∀ name, count_of (current_users st) name =
                  Z.of_nat (open_sessions ss done_list name)) as Hopen.
  { intros Horder name. subst done_list.
    rewrite Hbal, ended_unstarted_zero by done. lia. }
  split_and!; [done| |done|done|done|].
  - intros name. unfold count_of.
    destruct (current_users st !! name) as [n|] eqn:Hn; simpl; [|done].
    apply Hpos in Hn. split; [lia|done].
  - intros Hss. apply Hopen. intros i. by apply ordered_sessions_fire_in_order.
Qed.

Lemma active_users_counts_witness :
  sweep_events sweep_init (take 2 (sorted (demo_sessions ≫= session_events))) =
    Ok (sweep_loop sweep_init (take 2 demo_events)).1 ∧
  count_of (current_users (sweep_loop sweep_init (take 2 demo_events)).1) "Bob" =
  Z.of_nat (open_sessions demo_sessions (take 2 (marked_stream demo_sessions)) "Bob")
  - Z.of_nat (ended_unstarted demo_sessions (take 2 (marked_stream demo_sessions)) "Bob").
Proof.
  assert (sweep_events sweep_init (take 2 (sorted (demo_sessions ≫= session_events))) =
          Ok (sweep_loop sweep_init (take 2 demo_events)).1) as Hst
    by (vm_compute; reflexivity).
  split; [exact Hst|].
  exact (proj1 (proj2 (proj2 (proj2 (active_users_counts demo_sessions 2 _ Hst)))) "Bob").
Defined.

(** * The example of the description, run

    Alice from 10:00 to 11:00 and Bob from 10:30 to 10:45, with a record of
    2021 and a user that is not in the directory. *)

Example demo_users_read :
  get_user_dict demo_user_records = Ok demo_users ∧
  demo_users !! "u1" = Some "Alice" ∧ demo_users !! "u2" = Some "Bob".
Proof. vm_compute. done. Qed.

Example demo_events_read :
  get_event_list fromisoformat_seconds demo_rows demo_users =
  Ok [(at_time 10 0, 1, "Alice"); (at_time 10 30, 1, "Bob"); (at_time 10 45, -1, "Bob");
      (at_time 10 50, 1, "u9"); (at_time 10 55, -1, "u9"); (at_time 11 0, -1, "Alice")].
Proof. vm_compute. reflexivity. Qed.

Example demo_report :
  write_session_count_csv_file demo_events =
  ([(at_time 10 0, 1, "Alice=1"); (at_time 10 30, 2, "Alice=1 Bob=1");
    (at_time 10 45, 1, "Alice=1"); (at_time 10 50, 2, "Alice=1 u9=1");
    (at_time 10 55, 1, "Alice=1"); (at_time 11 0, 0, "")],
   Ok (2, at_time 10 0, at_time 11 0)).
Proof. vm_compute. reflexivity. Qed.

(** * The other functions: the directory, short and malformed rows,
      the summary, the paths *)

(** ** The user directory *)

Lemma user_dict_from_app (user_dict : gmap string string)
    (l1 l2 : list (gmap string string)) :
  user_dict_from user_dict (l1 ++ l2) =
  (user_dict' ← user_dict_from user_dict l1; user_dict_from user_dict' l2).
Proof.
  revert user_dict. induction l1 as [|r l1 IH]; intros user_dict; [done|].
  simpl. unfold getitem.
  destruct (r !! "id") as [id|]; [|done]. simpl.
  destruct (r !! "username") as [name|]; [|done]. simpl. apply IH.
Qed.

(** An identifier is mapped to the name of the last record that has it. *)
Lemma user_dict_lookup_last (user_info_list : list (gmap string string))
    (user_dict : gmap string string) :
  get_user_dict user_info_list = Ok user_dict →
  ∀ id name,
    user_dict !! id = Some name ↔
    ∃ l1 r l2, user_info_list = l1 ++ r :: l2 ∧
      r !! "id" = Some id ∧ r !! "username" = Some name ∧
      Forall (λ r', r' !! "id" ≠ Some id) l2.
Proof.
  unfold get_user_dict. revert user_dict.
  induction user_info_list as [|r l IH] using rev_ind; intros user_dict.
  - intros [= <-] id name. rewrite lookup_empty. split; [done|].
    intros (l1 & r & l2 & Heq & _). by destruct l1.
  - rewrite user_dict_from_app.
    destruct (user_dict_from ∅ l) as [d|] eqn:Hl; simpl; [|done].
    unfold getitem.
    destruct (r !! "id") as [id'|] eqn:Hid; [|done]. simpl.
    destruct (r !! "username") as [name'|] eqn:Hname; [|done]. simpl.
    intros [= <-] id name. specialize (IH d eq_refl id name). split.
    + destruct (decide (id' = id)) as [->|Hne].
      * rewrite lookup_insert_eq. intros [= <-]. exists l, r, []. by split_and!.
      * rewrite lookup_insert_ne by done.
        intros (l1 & r0 & l2 & -> & Hr0 & Hn0 & Hl2)%IH.
        exists l1, r0, (l2 ++ [r]). rewrite <-app_assoc. split_and!; try done.
        apply Forall_app. split; [done|]. apply Forall_singleton. congruence.
    + intros (l1 & r0 & l2 & Heq & Hr0 & Hn0 & Hl2).
      destruct l2 as [|x l2 _] using rev_ind.
      * apply app_inj_tail in Heq as [-> ->]. simplify_eq.
        by rewrite lookup_insert_eq.
      * rewrite app_comm_cons, app_assoc in Heq.
        apply app_inj_tail in Heq as [-> ->].
        apply Forall_app in Hl2 as [Hl2 Hx]. rewrite Forall_singleton in Hx.
        rewrite lookup_insert_ne by congruence. apply IH. eauto 10.
Qed.

Lemma user_dict_total (user_info_list : list (gmap string string)) :
  Forall complete_record user_info_list →
  ∃ user_dict, get_user_dict user_info_list = Ok user_dict ∧
    ∀ id, is_Some (user_dict !! id) ↔
          ∃ r, r ∈ user_info_list ∧ r !! "id" = Some id.
Proof.
  unfold get_user_dict.
  induction user_info_list as [|r l IH] using rev_ind; intros Hall.
  - exists ∅. split; [done|]. intros id. rewrite lookup_empty. split.
    + by intros [? ?].
    + by intros (r & ?%elem_of_nil & _).
  - apply Forall_app in Hall as [Hl Hr]. rewrite Forall_singleton in Hr.
    destruct (IH Hl) as (d & Hd & Hdom). destruct Hr as [[id' Hid] [name' Hname]].
    exists (<[id' := name']> d). split.
    { rewrite user_dict_from_app, Hd. simpl. unfold getitem. by rewrite Hid, Hname. }
    intros id. rewrite lookup_insert. case_decide as Heq.
    + subst. split; [|by eauto]. intros _. exists r. split; [|done].
      apply elem_of_app. right. by apply list_elem_of_singleton.
    + rewrite Hdom. split.
      * intros (r0 & Hin & Hr0). exists r0. split; [|done].
        apply elem_of_app. by left.
      * intros (r0 & [Hin|Hin%list_elem_of_singleton]%elem_of_app & Hr0); [by eauto|].
        congruence.
Qed.

(** When the directory is returned, every record was complete. *)
Lemma user_dict_Ok_complete (user_info_list : list (gmap string string))
    (user_dict : gmap string string) :
  get_user_dict user_info_list = Ok user_dict → Forall complete_record user_info_list.
Proof.
  unfold get_user_dict. revert user_dict.
  induction user_info_list as [|r l IH] using rev_ind; intros user_dict; [by constructor|].
  rewrite user_dict_from_app.
  destruct (user_dict_from ∅ l) as [d|] eqn:Hl; simpl; [|done].
  unfold getitem.
  destruct (r !! "id") as [id'|] eqn:Hid; [|done]. simpl.
  destruct (r !! "username") as [name'|] eqn:Hname; [|done]. simpl.
  intros _. apply Forall_app. split; [by eapply IH|].
  apply Forall_singleton. split; by eexists.
Qed.

(** An identifier has no entry exactly when no record has it. *)
Lemma user_dict_lookup_none (user_info_list : list (gmap string string))
    (user_dict : gmap string string) (id : string) :
  get_user_dict user_info_list = Ok user_dict →
  user_dict !! id = None ↔ Forall (λ r, r !! "id" ≠ Some id) user_info_list.
Proof.
  intros Hget.
  destruct (user_dict_total _ (user_dict_Ok_complete _ _ Hget)) as (d & Hd & Hdom).
  rewrite Hget in Hd. injection Hd as <-.
  rewrite eq_None_not_Some, Hdom, Forall_forall. split.
  - intros Hnone r Hr Hid. apply Hnone. eauto.
  - intros Hall (r & Hr & Hid). by apply (Hall r).
Qed.

(** X1. The directory maps an identifier to the username of the last
    record that has it, and has no entry for an identifier that no record
    has. *)
Theorem get_user_dict_last_wins (user_info_list : list (gmap string string))
    (user_dict : gmap string string) :
  get_user_dict user_info_list = Ok user_dict →
  (∀ id name,
     user_dict !! id = Some name ↔
     ∃ l1 r l2, user_info_list = l1 ++ r :: l2 ∧
       r !! "id" = Some id ∧ r !! "username" = Some name ∧
       Forall (λ r', r' !! "id" ≠ Some id) l2) ∧
  (∀ id, user_dict !! id = None ↔ Forall (λ r, r !! "id" ≠ Some id) user_info_list).
Proof.
  intros Hget. split.
  - by apply user_dict_lookup_last.
  - intros id. by apply user_dict_lookup_none.
Qed.

Lemma get_user_dict_last_wins_witness :
  get_user_dict renamed_user_records = Ok renamed_users ∧
  (renamed_users !! "u1" = Some "Alicia" ↔
   ∃ l1 r l2, renamed_user_records = l1 ++ r :: l2 ∧
     r !! "id" = Some "u1" ∧ r !! "username" = Some "Alicia" ∧
     Forall (λ r', r' !! "id" ≠ Some "u1") l2).
Proof.
  assert (get_user_dict renamed_user_records = Ok renamed_users) as Hget
    by (vm_compute; reflexivity).
  split; [exact Hget|].
  exact (proj1 (get_user_dict_last_wins renamed_user_records renamed_users Hget)
           "u1" "Alicia").
Defined.

(** X2. The directory is returned when every record has an [id] and a
    [username], and then its keys are the identifiers of the records; the
    first record that lacks one of the two raises [KeyError] on the key it
    lacks, [id] first. *)
Theorem get_user_dict_complete (user_info_list : list (gmap string string)) :
  (Forall complete_record user_info_list →
   ∃ user_dict, get_user_dict user_info_list = Ok user_dict ∧
     ∀ id, is_Some (user_dict !! id) ↔
           ∃ r, r ∈ user_info_list ∧ r !! "id" = Some id) ∧
  (∀ l1 r l2, user_info_list = l1 ++ r :: l2 →
     Forall complete_record l1 → ¬ complete_record r →
     get_user_dict user_info_list = Raise (KeyError (missing_key r))).
Proof.
  split; [apply user_dict_total|].
  intros l1 r l2 -> Hl1 Hr. unfold get_user_dict.
  destruct (user_dict_total l1 Hl1) as (d & Hd & _). unfold get_user_dict in Hd.
  rewrite user_dict_from_app, Hd. simpl. unfold getitem, missing_key.
  destruct (r !! "id") as [id|] eqn:Hid; [|done]. simpl.
  destruct (r !! "username") as [name|] eqn:Hname; [|done].
  destruct Hr. split; eauto.
Qed.

Lemma get_user_dict_complete_witness :
  get_user_dict broken_user_records = Raise (KeyError "username").
Proof.
  apply (proj2 (get_user_dict_complete broken_user_records)
           [dict [("id", "u1"); ("username", "Alice")]]
           (dict [("id", "u2")])
           [dict [("username", "Carol")]]).
  - reflexivity.
  - apply Forall_singleton. split; vm_compute; by eexists.
  - intros [_ [name Hname]]. vm_compute in Hname. discriminate Hname.
Defined.

(** ** Rows that fail, rows with offsets *)

Section RowFacts.
Context (fromisoformat : string → result datetime).
Context (user_dict : gmap string string).

Local Abbreviation read_row := (read_row fromisoformat user_dict).
Local Abbreviation read_rows := (read_rows fromisoformat user_dict).
Local Abbreviation get_event_list := (get_event_list fromisoformat).
Local Abbreviation row_times := (row_times fromisoformat).
Local Abbreviation valid_row := (valid_row fromisoformat).
Local Abbreviation row_events := (row_events fromisoformat user_dict).



End RowFacts.

(** X3. A date-time that does not parse ends the run: when the rows before
    are read and the start text of a row, or its end text after a start text
    that parses, makes [fromisoformat] raise, the builder raises that
    exception, whatever the rows after.  The year filter does not shield the
    row: the end text is parsed also when the start year is before 2022. *)
Theorem malformed_timestamp_fails_run (fromisoformat : string → result datetime)
    (user_dict : gmap string string) (rows1 rows2 : list (list string))
    (row_list : list string) (event_list : list event) (err : exn) :
  read_rows fromisoformat user_dict [] rows1 = Ok event_list →
  (∃ s rest, row_list = s :: rest ∧ fromisoformat (split_head "+" s) = Raise err) ∨
  (∃ s e rest start, row_list = s :: e :: rest ∧
     fromisoformat (split_head "+" s) = Ok start ∧
     fromisoformat (split_head "+" e) = Raise err) →
  get_event_list fromisoformat (rows1 ++ row_list :: rows2) user_dict = Raise err.
Proof.
  intros Hrows1 Hbad. unfold get_event_list.
  rewrite read_rows_app, Hrows1. simpl. rewrite read_row_unfold.
  destruct Hbad as [(s & rest & -> & Hs)|(s & e & rest & start & -> & Hs & He)].
  - by rewrite Hs.
  - by rewrite Hs, He.
Qed.

Lemma malformed_timestamp_fails_run_witness :
  read_rows fromisoformat_seconds demo_users [] [alice_row] =
    Ok [(at_time 10 0, 1, "Alice"); (at_time 11 0, -1, "Alice")] ∧
  get_event_list fromisoformat_seconds ([alice_row] ++ bad_end_row :: demo_rows) demo_users =
    Raise (ValueError "11 o'clock").
Proof.
  assert (read_rows fromisoformat_seconds demo_users [] [alice_row] =
          Ok [(at_time 10 0, 1, "Alice"); (at_time 11 0, -1, "Alice")]) as Hrows
    by (vm_compute; reflexivity).
  split; [exact Hrows|].
  apply (malformed_timestamp_fails_run fromisoformat_seconds demo_users
           [alice_row] demo_rows bad_end_row _ (ValueError "11 o'clock") Hrows).
  right. exists "2021-06-01T10:00:00", "11 o'clock", ["u1"; "env"; "obj"],
    (mk_datetime 2021 6 1 10 0 0 0).
  split_and!; reflexivity.
Defined.

Lemma split_head_no_sep (c : ascii) (s off : string) :
  contains_char c s = false → split_head c (s +:+ String c off) = s.
Proof.
  induction s as [|c' s IH]; simpl.
  - intros _. change (split_head c (String c off) = ""). simpl.
    by rewrite decide_True.
  - intros [Hc Hs]%orb_false_iff. apply bool_decide_eq_false in Hc.
    change (split_head c (String c' (s +:+ String c off)) = String c' s). simpl.
    rewrite decide_False by done. by rewrite IH.
Qed.

Lemma split_head_id (c : ascii) (s : string) :
  contains_char c s = false → split_head c s = s.
Proof.
  induction s as [|c' s IH]; simpl; [done|].
  intros [Hc Hs]%orb_false_iff. apply bool_decide_eq_false in Hc.
  rewrite decide_False by done. by rewrite IH.
Qed.

Lemma split_head_clean (c : ascii) (s : string) :
  contains_char c (split_head c s) = false.
Proof.
  induction s as [|c' s IH]; simpl; [done|].
  case_decide as Hc; simpl; [done|]. rewrite IH. by rewrite bool_decide_eq_false_2.
Qed.

(** X4. The offset after the first [+] of a date-time text is discarded:
    a row is read as the row without the offsets. *)
Theorem offset_discarded (fromisoformat : string → result datetime)
    (user_dict : gmap string string) (s e : string) :
  contains_char "+" s = false → contains_char "+" e = false →
  ∀ off1 off2 rest event_list,
    read_row fromisoformat user_dict event_list
      ((s +:+ "+" +:+ off1) :: (e +:+ "+" +:+ off2) :: rest) =
    read_row fromisoformat user_dict event_list (s :: e :: rest).
Proof.
  intros Hs He off1 off2 rest event_list. rewrite !read_row_unfold.
  change ("+" +:+ off1) with (String "+" off1).
  change ("+" +:+ off2) with (String "+" off2).
  by rewrite !split_head_no_sep, !split_head_id.
Qed.

Lemma offset_discarded_witness :
  contains_char "+" "2023-01-01T10:00:00" = false ∧
  contains_char "+" "2023-01-01T11:00:00" = false ∧
  read_row fromisoformat_seconds demo_users []
    ["2023-01-01T10:00:00+02:00"; "2023-01-01T11:00:00+00:00"; "u1"] =
  read_row fromisoformat_seconds demo_users []
    ["2023-01-01T10:00:00"; "2023-01-01T11:00:00"; "u1"].
Proof.
  assert (contains_char "+" "2023-01-01T10:00:00" = false) as Hs by reflexivity.
  assert (contains_char "+" "2023-01-01T11:00:00" = false) as He by reflexivity.
  split; [exact Hs|]. split; [exact He|].
  exact (offset_discarded fromisoformat_seconds demo_users _ _ Hs He
           "02:00" "00:00" ["u1"] []).
Defined.

(** X5. What a row of fewer than three fields does: the empty row raises
    [KeyError] on [start_timestamp], a row of one field that parses on
    [end_timestamp], and a row of two fields is skipped without error when
    one of its years is before 2022 and raises [KeyError] on [user_id]
    otherwise. *)
Theorem short_row_outcomes (fromisoformat : string → result datetime)
    (user_dict : gmap string string) (event_list : list event) :
  read_row fromisoformat user_dict event_list [] = Raise (KeyError "start_timestamp") ∧
  (∀ s start, fromisoformat (split_head "+" s) = Ok start →
     read_row fromisoformat user_dict event_list [s] = Raise (KeyError "end_timestamp")) ∧
  (∀ s e start stop, row_times fromisoformat [s; e] = Some (start, stop) →
     read_row fromisoformat user_dict event_list [s; e] =
     if bool_decide (2022 ≤ year start ∧ 2022 ≤ year stop)
     then Raise (KeyError "user_id") else Ok event_list).
Proof.
  split_and!.
  - by rewrite read_row_unfold.
  - intros s start Hs. by rewrite read_row_unfold, Hs.
  - intros s e start stop Ht. rewrite read_row_unfold. simpl in Ht |- *.
    destruct (fromisoformat (split_head "+" s)) as [a|]; [|done].
    destruct (fromisoformat (split_head "+" e)) as [b|]; [|done].
    simplify_eq/=. repeat case_bool_decide; simpl; try done; lia.
Qed.

Lemma short_row_outcomes_witness :
  row_times fromisoformat_seconds ["2021-06-01T10:00:00"; "2023-01-01T11:00:00"] =
    Some (mk_datetime 2021 6 1 10 0 0 0, at_time 11 0) ∧
  read_row fromisoformat_seconds demo_users []
    ["2021-06-01T10:00:00"; "2023-01-01T11:00:00"] = Ok [].
Proof.
  assert (row_times fromisoformat_seconds ["2021-06-01T10:00:00"; "2023-01-01T11:00:00"] =
          Some (mk_datetime 2021 6 1 10 0 0 0, at_time 11 0)) as Ht by reflexivity.
  split; [exact Ht|].
  exact (proj2 (proj2 (short_row_outcomes fromisoformat_seconds demo_users []))
           _ _ _ _ Ht).
Defined.



(** ** Names and balance *)

Lemma read_row_valid (fromisoformat : string → result datetime)
    (user_dict : gmap string string) (event_list : list event)
    (row_list : list string) (start stop : datetime) (user_id : string) :
  row_times fromisoformat row_list = Some (start, stop) →
  valid_row fromisoformat row_list = true →
  row_list !! 2%nat = Some user_id →
  read_row fromisoformat user_dict event_list row_list =
  Ok (event_list ++ [(start, 1, display_name user_dict user_id);
                     (stop, -1, display_name user_dict user_id)]).
Proof.
  intros Ht Hv Huid. rewrite read_row_unfold.
  rewrite (valid_row_years _ _ _ _ Ht) in Hv. apply negb_true_iff in Hv.
  destruct row_list as [|s [|e [|u rest]]]; try done. simpl in Ht, Huid |- *.
  destruct (fromisoformat (split_head "+" s)) as [a|]; [|done].
  destruct (fromisoformat (split_head "+" e)) as [b|]; [|done].
  simplify_eq/=. by rewrite Hv.
Qed.

(** X7. The directory and the builder together: the events of a valid row
    carry the username of the last user record whose [id] is the row's
    [user_id], and the [user_id] itself when no record has that [id]. *)
Theorem display_name_from_records (fromisoformat : string → result datetime)
    (user_info_list : list (gmap string string)) (user_dict : gmap string string)
    (row_list : list string) (start stop : datetime) (user_id : string) :
  get_user_dict user_info_list = Ok user_dict →
  row_times fromisoformat row_list = Some (start, stop) →
  valid_row fromisoformat row_list = true →
  row_list !! 2%nat = Some user_id →
  ∃ name,
    (∀ event_list,
       read_row fromisoformat user_dict event_list row_list =
       Ok (event_list ++ [(start, 1, name); (stop, -1, name)])) ∧
    ((∃ l1 r l2, user_info_list = l1 ++ r :: l2 ∧
        r !! "id" = Some user_id ∧ r !! "username" = Some name ∧
        Forall (λ r', r' !! "id" ≠ Some user_id) l2) ∨
     (name = user_id ∧ Forall (λ r, r !! "id" ≠ Some user_id) user_info_list)).
Proof.
  intros Hget Ht Hv Huid. exists (display_name user_dict user_id). split.
  - intros event_list. by apply read_row_valid.
  - unfold display_name. destruct (user_dict !! user_id) as [name|] eqn:Hname.
    + left. by apply (user_dict_lookup_last _ _ Hget).
    + right. split; [done|]. by apply (user_dict_lookup_none _ _ _ Hget).
Qed.

Lemma display_name_from_records_witness :
  get_user_dict renamed_user_records = Ok renamed_users ∧
  row_times fromisoformat_seconds alice_row = Some (at_time 10 0, at_time 11 0) ∧
  valid_row fromisoformat_seconds alice_row = true ∧
  alice_row !! 2%nat = Some "u1" ∧
  ∃ name, ∀ event_list,
    read_row fromisoformat_seconds renamed_users event_list alice_row =
    Ok (event_list ++ [(at_time 10 0, 1, name); (at_time 11 0, -1, name)]).
Proof.
  assert (get_user_dict renamed_user_records = Ok renamed_users) as Hget
    by (vm_compute; reflexivity).
  assert (row_times fromisoformat_seconds alice_row = Some (at_time 10 0, at_time 11 0))
    as Ht by reflexivity.
  assert (valid_row fromisoformat_seconds alice_row = true) as Hv by reflexivity.
  assert (alice_row !! 2%nat = Some "u1") as Hu by reflexivity.
  split_and!; [exact Hget|exact Ht|exact Hv|exact Hu|].
  destruct (display_name_from_records fromisoformat_seconds renamed_user_records
              renamed_users alice_row _ _ "u1" Hget Ht Hv Hu) as (name & Hrow & _).
  by exists name.
Defined.

Lemma starts_of_app (name : string) (l1 l2 : list event) :
  starts_of name (l1 ++ l2) = (starts_of name l1 + starts_of name l2)%nat.
Proof. unfold starts_of. by rewrite filter_app, length_app. Qed.

Lemma ends_of_app (name : string) (l1 l2 : list event) :
  ends_of name (l1 ++ l2) = (ends_of name l1 + ends_of name l2)%nat.
Proof. unfold ends_of. by rewrite filter_app, length_app. Qed.

Lemma row_events_balanced (fromisoformat : string → result datetime)
    (user_dict : gmap string string) (row_list : list string) (name : string) :
  starts_of name (row_events fromisoformat user_dict row_list) =
  ends_of name (row_events fromisoformat user_dict row_list).
Proof.
  unfold row_events.
  destruct (row_times fromisoformat row_list) as [[start stop]|]; [|done].
  destruct (row_list !! 2%nat) as [user_id|]; [|done].
  unfold starts_of, ends_of, ev_delta, ev_name.
  rewrite !filter_cons, !filter_nil. simpl.
  repeat case_decide; destruct_and?; first [done | lia | exfalso; by eauto].
Qed.

Lemma starts_of_perm (name : string) (l1 l2 : list event) :
  l1 ≡ₚ l2 → starts_of name l1 = starts_of name l2.
Proof. intros Hp. unfold starts_of. by rewrite Hp. Qed.

Lemma ends_of_perm (name : string) (l1 l2 : list event) :
  l1 ≡ₚ l2 → ends_of name l1 = ends_of name l2.
Proof. intros Hp. unfold ends_of. by rewrite Hp. Qed.

(** X11. The stream of the builder is balanced: every delta is +1 or -1,
    the deltas sum to zero, and each display name has as many start events
    as end events. *)
Theorem stream_balanced (fromisoformat : string → result datetime)
    (rows : list (list string)) (user_dict : gmap string string)
    (event_list : list event) :
  get_event_list fromisoformat rows user_dict = Ok event_list →
  Forall event_ok event_list ∧
  sum_deltas event_list = 0 ∧
  ∀ name, starts_of name event_list = ends_of name event_list.
Proof.
  intros Hget. destruct (builder_events_paired _ _ _ _ Hget) as [Hok Hsum].
  split_and!; [done..|]. intros name.
  apply get_event_list_Ok in Hget as ->.
  rewrite (starts_of_perm _ _ _ (sorted_perm _)), (ends_of_perm _ _ _ (sorted_perm _)).
  clear Hok Hsum. induction (filter _ rows) as [|row l IH]; [done|].
  rewrite !bind_cons, starts_of_app, ends_of_app, IH.
  by rewrite row_events_balanced.
Qed.

Lemma stream_balanced_witness :
  get_event_list fromisoformat_seconds demo_rows demo_users = Ok demo_events ∧
  starts_of "Bob" demo_events = ends_of "Bob" demo_events.
Proof.
  assert (get_event_list fromisoformat_seconds demo_rows demo_users = Ok demo_events)
    as Hget by (vm_compute; reflexivity).
  split; [exact Hget|].
  exact (proj2 (proj2 (stream_balanced _ _ _ _ Hget)) "Bob").
Defined.

(** ** The peak, the totals and the users column *)

Lemma sweep_events_peak (event_list : list event) (st : sweep_state) :
  sweep_events sweep_init event_list = Ok st →
  0 ≤ max_session_count st ∧
  (∀ r, r ∈ written st → row_sessions r ≤ max_session_count st) ∧
  (max_session_count st = 0 ∨
   ∃ r, r ∈ written st ∧ row_sessions r = max_session_count st).
Proof.
  revert st. induction event_list as [|e l IH] using rev_ind; intros st.
  - rewrite sweep_events_nil. intros [= <-]. simpl. split_and!; [done| |by left].
    by intros r ?%elem_of_nil.
  - intros (st0 & Hl & He)%sweep_events_snoc_Ok.
    destruct (IH _ Hl) as (Hpos & Hle & Hmax).
    apply sweep_event_Ok in He as (counts & _ & _ & -> & _ & ->).
    split_and!.
    + lia.
    + intros r [Hr|Hr%list_elem_of_singleton]%elem_of_app.
      * apply Hle in Hr. lia.
      * subst r. unfold row_sessions. simpl. lia.
    + destruct (Z.max_spec (max_session_count st0) (session_count st0 + ev_delta e))
        as [[_ ->]|[_ ->]].
      * right. eexists. split; [apply elem_of_app; right; by apply list_elem_of_singleton|].
        done.
      * destruct Hmax as [?|(r & Hr & Heq)]; [by left|].
        right. exists r. split; [|done]. apply elem_of_app. by left.
Qed.

(** X8. On a stream that is not empty and raises nothing, the function
    writes the rows and returns the summary: the time of the first event,
    the time of the last event, and a peak that is not negative, is not less
    than the count of any row, and is the count of some row unless it is
    zero. *)
Theorem summary_peak_and_span (event_list : list event) (st : sweep_state)
    (first final : event) :
  sweep_events sweep_init event_list = Ok st →
  head event_list = Some first → last event_list = Some final →
  write_session_count_csv_file event_list =
    (written st, Ok (max_session_count st, ev_time first, ev_time final)) ∧
  0 ≤ max_session_count st ∧
  (∀ r, r ∈ written st → row_sessions r ≤ max_session_count st) ∧
  (max_session_count st = 0 ∨
   ∃ r, r ∈ written st ∧ row_sessions r = max_session_count st).
Proof.
  intros Hst Hfirst Hfinal. split; [|by apply (sweep_events_peak event_list)].
  unfold write_session_count_csv_file.
  apply sweep_loop_None in Hst as ->.
  unfold first_item, last_item. by rewrite Hfirst, Hfinal.
Qed.

Lemma summary_peak_and_span_witness :
  sweep_events sweep_init demo_events = Ok (sweep_loop sweep_init demo_events).1 ∧
  head demo_events = Some (at_time 10 0, 1, "Alice") ∧
  last demo_events = Some (at_time 11 0, -1, "Alice") ∧
  (write_session_count_csv_file demo_events).2 = Ok (2, at_time 10 0, at_time 11 0).
Proof.
  assert (sweep_events sweep_init demo_events = Ok (sweep_loop sweep_init demo_events).1)
    as Hst by (vm_compute; reflexivity).
  assert (head demo_events = Some (at_time 10 0, 1, "Alice")) as Hfirst by reflexivity.
  assert (last demo_events = Some (at_time 11 0, -1, "Alice")) as Hfinal by reflexivity.
  split_and!; [exact Hst|exact Hfirst|exact Hfinal|].
  rewrite (proj1 (summary_peak_and_span demo_events _ _ _ Hst Hfirst Hfinal)).
  vm_compute. reflexivity.
Defined.

(** X9. The count of a row is the running total: the row at a position
    has the time of the event at that position and the sum of the deltas of
    the events up to and including it. *)
Theorem row_is_running_total (event_list : list event) (st : sweep_state)
    (i : nat) (r : out_row) :
  sweep_events sweep_init event_list = Ok st →
  written st !! i = Some r →
  ∃ e, event_list !! i = Some e ∧ row_time r = ev_time e ∧
       row_sessions r = sum_deltas (take (S i) event_list).
Proof.
  intros Hst Hr.
  assert (i < length event_list)%nat as Hi.
  { rewrite <-(sweep_events_written_length _ _ Hst). by eapply lookup_lt_Some. }
  apply lookup_lt_is_Some in Hi as [e He]. exists e. split; [done|].
  destruct (sweep_events_row _ _ _ _ Hst He) as (st_i & Hst_i & Hrow).
  pose proof (eq_trans (eq_sym Hr) Hrow) as Heq. injection Heq as ->.
  apply sweep_events_inv in Hst_i as [Htot _ _ _]. by rewrite <-Htot.
Qed.

Lemma row_is_running_total_witness :
  sweep_events sweep_init demo_events = Ok (sweep_loop sweep_init demo_events).1 ∧
  written (sweep_loop sweep_init demo_events).1 !! 1%nat =
    Some (at_time 10 30, 2, "Alice=1 Bob=1") ∧
  ∃ e, demo_events !! 1%nat = Some e ∧
    row_time (at_time 10 30, 2, "Alice=1 Bob=1") = ev_time e ∧
    row_sessions (at_time 10 30, 2, "Alice=1 Bob=1") = sum_deltas (take 2 demo_events).
Proof.
  assert (sweep_events sweep_init demo_events = Ok (sweep_loop sweep_init demo_events).1)
    as Hst by (vm_compute; reflexivity).
  assert (written (sweep_loop sweep_init demo_events).1 !! 1%nat =
          Some (at_time 10 30, 2, "Alice=1 Bob=1")) as Hr by (vm_compute; reflexivity).
  split; [exact Hst|]. split; [exact Hr|].
  exact (row_is_running_total demo_events _ 1 _ Hst Hr).
Defined.

Lemma str_app_empty (s t : string) : s +:+ t = "" → s = "".
Proof. by destruct s. Qed.

Lemma str_join_empty (sep s : string) (l : list string) :
  str_join sep (s :: l) = "" → s = "".
Proof. destruct l; simpl; [done|]. apply str_app_empty. Qed.

(** The users column is empty exactly when no user has an entry. *)
Lemma user_string_empty (counts : gmap string Z) : user_string counts = "" ↔ counts = ∅.
Proof.
  split.
  - intros Hempty.
    destruct (map_to_list counts) as [|[k n] l] eqn:Hlist;
      [by apply map_to_list_empty_iff|]. exfalso.
    unfold user_string in Hempty.
    assert (length (sorted (user_tokens counts)) = S (length l)) as Hlen.
    { rewrite sorted_length. unfold user_tokens. by rewrite Hlist, length_fmap. }
    destruct (sorted (user_tokens counts)) as [|t ts] eqn:Htokens; [done|].
    apply str_join_empty in Hempty as ->.
    assert ("" ∈ user_tokens counts) as Hin.
    { rewrite <-(sorted_perm (user_tokens counts)), Htokens. by left. }
    apply list_elem_of_fmap in Hin as ([k' n'] & Hk & _). simpl in Hk.
    by destruct k'.
  - intros ->. unfold user_string, user_tokens. by rewrite map_to_list_empty.
Qed.

(** X10. On start and end events, no row that is written has a negative
    count, and the count of a row is zero exactly when its users column is
    empty. *)
Theorem rows_never_negative (event_list : list event) (st : sweep_state) :
  Forall event_ok event_list →
  sweep_events sweep_init event_list = Ok st →
  ∀ r, r ∈ written st →
    0 ≤ row_sessions r ∧ (row_sessions r = 0 ↔ row_users r = "").
Proof.
  intros Hok Hst r [i Hr]%list_elem_of_lookup.
  assert (i < length event_list)%nat as Hi.
  { rewrite <-(sweep_events_written_length _ _ Hst). by eapply lookup_lt_Some. }
  apply lookup_lt_is_Some in Hi as [e He].
  destruct (sweep_events_row _ _ _ _ Hst He) as (st_i & Hst_i & Hrow).
  pose proof (eq_trans (eq_sym Hr) Hrow) as Heq. injection Heq as ->.
  unfold row_sessions, row_users. simpl.
  assert (Forall event_ok (take (S i) event_list)) as Hok' by by apply Forall_take.
  pose proof (sweep_events_sum _ _ Hok' Hst_i) as Hsum.
  apply sweep_events_inv in Hst_i as [_ _ Hpos _].
  pose proof (sum_counts_positive _ Hpos) as Hsize.
  rewrite user_string_empty. split; [lia|]. split.
  - intros Hzero. apply sum_counts_zero; [done|lia].
  - intros Hempty. rewrite <-Hsum, Hempty. apply sum_counts_empty.
Qed.

Lemma rows_never_negative_witness :
  Forall event_ok demo_events ∧
  sweep_events sweep_init demo_events = Ok (sweep_loop sweep_init demo_events).1 ∧
  ∀ r, r ∈ written (sweep_loop sweep_init demo_events).1 →
    0 ≤ row_sessions r ∧ (row_sessions r = 0 ↔ row_users r = "").
Proof.
  assert (Forall event_ok demo_events) as Hok.
  { unfold demo_events.
    repeat (apply Forall_cons_2; [first [by left|by right]|]). apply Forall_nil_2. }
  assert (sweep_events sweep_init demo_events = Ok (sweep_loop sweep_init demo_events).1)
    as Hst by (vm_compute; reflexivity).
  split; [exact Hok|]. split; [exact Hst|].
  exact (rows_never_negative demo_events _ Hok Hst).
Defined.

(** ** Sessions in order, sessions out of order *)







(** ** Choosing the paths *)

Lemma str_max_fold (m0 : string) (l : list string) :
  let m := foldl (λ m x, if py_lt m x then x else m) m0 l in
  m ∈ m0 :: l ∧ ∀ x, x ∈ m0 :: l → py_lt m x = false.
Proof.
  revert m0. induction l as [|y l IH]; intros m0; simpl.
  - split; [by left|]. intros x ->%list_elem_of_singleton. apply py_lt_irrefl.
  - destruct (IH (if py_lt m0 y then y else m0)) as [Hin Hmax]. split.
    + apply elem_of_cons in Hin as [->|Hin].
      * destruct (py_lt m0 y); [right; by left|by left].
      * by do 2 right.
    + intros x [->|[->|Hx]%elem_of_cons]%elem_of_cons.
      * destruct (py_lt m0 y) eqn:Hlt; [|apply Hmax; by left].
        assert (py_le m0 y) as H1 by by apply py_lt_le.
        assert (py_le y (foldl (λ m x, if py_lt m x then x else m) y l)) as H2.
        { apply Hmax. by left. }
        exact (transitivity (R := py_le) H1 H2).
      * destruct (py_lt m0 y) eqn:Hlt; [apply Hmax; by left|].
        assert (py_le m0 (foldl (λ m x, if py_lt m x then x else m) m0 l)) as H2.
        { apply Hmax. by left. }
        assert (py_le y m0) as H1 by done.
        exact (transitivity (R := py_le) H1 H2).
      * apply Hmax. by right.
Qed.

Lemma str_max_Ok (l : list string) (m : string) :
  str_max l = Ok m → m ∈ l ∧ ∀ x, x ∈ l → py_lt m x = false.
Proof.
  destruct l as [|s l]; [done|]. intros [= <-]. apply str_max_fold.
Qed.

Lemma str_max_Raise (l : list string) :
  (∃ err, str_max l = Raise err) ↔ l = [].
Proof.
  destruct l as [|s l]; simpl.
  - split; [done|]. intros _. by eexists.
  - split; [|done]. by intros [err ?].
Qed.

(** X14. Without arguments, the session file and the user file are the
    greatest matches of their patterns, no match being greater, and the
    output path is the session path with [sessions_] replaced. *)
Theorem default_paths_latest (argv0 : string) (glob : string → list string)
    (session_csv_path user_json_path session_count_csv_path : string) :
  main_paths [argv0] glob =
    Ok (session_csv_path, user_json_path, session_count_csv_path) →
  session_csv_path ∈ glob "sessions_*.csv" ∧
  (∀ p, p ∈ glob "sessions_*.csv" → py_lt session_csv_path p = false) ∧
  user_json_path ∈ glob "users_*.json" ∧
  (∀ p, p ∈ glob "users_*.json" → py_lt user_json_path p = false) ∧
  session_count_csv_path = str_replace "sessions_" "session_count_" session_csv_path.
Proof.
  unfold main_paths. simpl.
  destruct (str_max (glob "sessions_*.csv")) as [s|] eqn:Hs; [|done].
  destruct (str_max (glob "users_*.json")) as [u|] eqn:Hu; [|done].
  simpl. intros [= <- <- <-].
  apply str_max_Ok in Hs as [??], Hu as [??]. by split_and!.
Qed.

Lemma default_paths_latest_witness :
  main_paths ["session_count.py"] demo_glob =
    Ok ("sessions_20230301.csv", "users_20230101.json", "session_count_20230301.csv") ∧
  ∀ p, p ∈ demo_glob "sessions_*.csv" → py_lt "sessions_20230301.csv" p = false.
Proof.
  assert (main_paths ["session_count.py"] demo_glob =
          Ok ("sessions_20230301.csv", "users_20230101.json",
              "session_count_20230301.csv")) as Hpaths by (vm_compute; reflexivity).
  split; [exact Hpaths|].
  exact (proj1 (proj2 (default_paths_latest _ _ _ _ _ Hpaths))).
Defined.

(** X15. When a path is not given and no file matches its pattern, the run
    ends with [ValueError] before anything is read, and no file is
    written. *)
Theorem missing_default_file (argv : list string) (glob : string → list string)
    (read_json : string → result (list (gmap string string)))
    (read_csv : string → result (list (list string)))
    (fromisoformat : string → result datetime) :
  ((length argv < 2)%nat ∧ glob "sessions_*.csv" = []) ∨
  ((length argv < 3)%nat ∧ glob "users_*.json" = []) →
  ∃ text, main argv glob read_json read_csv fromisoformat = (None, Raise (ValueError text)).
Proof.
  intros Hmissing. unfold main, main_paths.
  destruct Hmissing as [[Hlen Hglob]|[Hlen Hglob]]; rewrite Hglob.
  - rewrite (decide_False (P := (2 ≤ length argv)%nat)) by lia. simpl. by eexists.
  - rewrite (decide_False (P := (3 ≤ length argv)%nat)) by lia.
    destruct argv as [|a0 [|a1 [|a2 argv]]]; simpl in Hlen |- *; try lia.
    + destruct (glob "sessions_*.csv"); simpl; by eexists.
    + destruct (glob "sessions_*.csv"); simpl; by eexists.
    + by eexists.
Qed.

Lemma missing_default_file_witness :
  ((length ["session_count.py"] < 2)%nat ∧ empty_glob "sessions_*.csv" = []) ∧
  ∃ text,
    main ["session_count.py"] empty_glob (λ _, Ok []) (λ _, Ok []) fromisoformat_seconds =
    (None, Raise (ValueError text)).
Proof.
  assert ((length ["session_count.py"] < 2)%nat ∧ empty_glob "sessions_*.csv" = [])
    as Hmissing by (split; [simpl; lia|reflexivity]).
  split; [exact Hmissing|].
  exact (missing_default_file _ _ _ _ _ (or_introl Hmissing)).
Defined.

(** ** The default output path *)

Lemma str_app_length (s t : string) :
  String.length (s +:+ t) = (String.length s + String.length t)%nat.
Proof.
  induction s as [|c s IH]; [done|]. rewrite str_app_cons. simpl. by rewrite IH.
Qed.

Lemma starts_with_app (p s : string) : starts_with p (p +:+ s) = true.
Proof.
  induction p as [|c p IH]; [done|]. rewrite str_app_cons. simpl.
  by rewrite bool_decide_eq_true_2, IH.
Qed.

(** Without an occurrence, nothing is replaced. *)
Lemma replace_no_occurrence (old new s : string) :
  str_contains old s = false → str_replace old new s = s.
Proof.
  unfold str_replace. induction s as [|c s IH]; [done|].
  simpl. intros [Hhere Hlater]%orb_false_iff.
  simpl in Hhere. rewrite Hhere. by rewrite IH.
Qed.

(** The characters of an occurrence that was replaced are passed over. *)
Lemma replace_from_skip (old new p s : string) :
  replace_from old new (String.length p) (p +:+ s) = replace_from old new 0 s.
Proof. induction p as [|c p IH]; [done|]. rewrite str_app_cons. simpl. apply IH. Qed.

Lemma replace_at_occurrence (c : ascii) (old new s : string) :
  str_replace (String c old) new (String c old +:+ s) =
  new +:+ str_replace (String c old) new s.
Proof.
  unfold str_replace. rewrite str_app_cons.
  change (replace_from (String c old) new 0 (String c (old +:+ s))) with
    (if starts_with (String c old) (String c (old +:+ s))
     then new +:+ replace_from (String c old) new
                    (String.length (String c old) - 1) (old +:+ s)
     else String c (replace_from (String c old) new 0 (old +:+ s))).
  rewrite <-str_app_cons, starts_with_app. simpl.
  by rewrite Nat.sub_0_r, replace_from_skip.
Qed.

Lemma starts_with_first (c : ascii) (old s : string) :
  starts_with (String c old) s = true → ∃ s', s = String c s'.
Proof.
  destruct s as [|c' s]; [done|]. simpl.
  intros [->%bool_decide_eq_true _]%andb_true_iff. by eexists.
Qed.

(** Before the first character of [old] occurs, nothing is replaced. *)
Lemma replace_prefix (c : ascii) (old new p s : string) :
  contains_char c p = false →
  str_replace (String c old) new (p +:+ s) = p +:+ str_replace (String c old) new s.
Proof.
  unfold str_replace. induction p as [|c' p IH]; [done|].
  simpl. intros [Hc Hp]%orb_false_iff. apply bool_decide_eq_false in Hc.
  rewrite !str_app_cons.
  change (replace_from (String c old) new 0 (String c' (p +:+ s))) with
    (if starts_with (String c old) (String c' (p +:+ s))
     then new +:+ replace_from (String c old) new
                    (String.length (String c old) - 1) (p +:+ s)
     else String c' (replace_from (String c old) new 0 (p +:+ s))).
  simpl. rewrite bool_decide_eq_false_2 by congruence. simpl. by rewrite IH.
Qed.

(** When [new] is no shorter than [old], the text does not shrink. *)
Lemma replace_from_length (old new : string) (skip : nat) (s : string) :
  (1 ≤ String.length old ≤ String.length new)%nat →
  (String.length s ≤ String.length (replace_from old new skip s) + skip)%nat.
Proof.
  intros Hlen. revert skip. induction s as [|c s IH]; intros skip; simpl; [lia|].
  destruct skip as [|k].
  - destruct (starts_with old (String c s)).
    + rewrite str_app_length. specialize (IH (String.length old - 1)%nat). lia.
    + simpl. specialize (IH 0%nat). lia.
  - specialize (IH k). lia.
Qed.

(** When [new] is longer than [old], the text grows when [old] occurs. *)
Lemma replace_grows (old new s : string) :
  (1 ≤ String.length old < String.length new)%nat →
  str_contains old s = true →
  (String.length s < String.length (str_replace old new s))%nat.
Proof.
  intros Hlen. unfold str_replace. induction s as [|c s IH].
  - destruct old; [simpl in Hlen; lia|done].
  - simpl. destruct (starts_with old (String c s)) eqn:Hhere; simpl.
    + intros _. rewrite str_app_length.
      pose proof (replace_from_length old new (String.length old - 1) s). lia.
    + intros Hlater. specialize (IH Hlater). lia.
Qed.

(** X16. Without a third argument the output path is the session path with
    every [sessions_] replaced by [session_count_]; it is the session path
    itself exactly when [sessions_] does not occur in it. *)
Theorem default_output_path (argv : list string) (glob : string → list string)
    (session_csv_path user_json_path session_count_csv_path : string) :
  main_paths argv glob = Ok (session_csv_path, user_json_path, session_count_csv_path) →
  (length argv < 4)%nat →
  session_count_csv_path = str_replace "sessions_" "session_count_" session_csv_path ∧
  (session_count_csv_path = session_csv_path ↔
   str_contains "sessions_" session_csv_path = false).
Proof.
  unfold main_paths. intros Hpaths Hlen.
  destruct (if decide (2 ≤ length argv)%nat then argv_item argv 1
            else str_max (glob "sessions_*.csv")) as [s|]; [|done].
  simpl in Hpaths.
  destruct (if decide (3 ≤ length argv)%nat then argv_item argv 2
            else str_max (glob "users_*.json")) as [u|]; [|done].
  simpl in Hpaths.
  rewrite (decide_False (P := (4 ≤ length argv)%nat)) in Hpaths by lia.
  simpl in Hpaths. injection Hpaths as <- <- <-. split; [done|]. split.
  - intros Heq. destruct (str_contains "sessions_" s) eqn:Hocc; [|done].
    apply (replace_grows "sessions_" "session_count_") in Hocc; [|simpl; lia].
    rewrite Heq in Hocc. lia.
  - apply replace_no_occurrence.
Qed.

Lemma default_output_path_witness :
  main_paths ["session_count.py"; "log.csv"; "users.json"] empty_glob =
    Ok ("log.csv", "users.json", "log.csv") ∧
  (length ["session_count.py"; "log.csv"; "users.json"] < 4)%nat ∧
  ("log.csv" = "log.csv" ↔ str_contains "sessions_" "log.csv" = false).
Proof.
  assert (main_paths ["session_count.py"; "log.csv"; "users.json"] empty_glob =
          Ok ("log.csv", "users.json", "log.csv")) as Hpaths by (vm_compute; reflexivity).
  assert (length ["session_count.py"; "log.csv"; "users.json"] < 4)%nat as Hlen
    by (simpl; lia).
  split; [exact Hpaths|]. split; [exact Hlen|].
  exact (proj2 (default_output_path _ _ _ _ _ Hpaths Hlen)).
Defined.

(** X17. The usual names: [sessions_] followed by a name is replaced by
    [session_count_] followed by that name, after a directory part in which
    no [s] occurs. *)
Theorem output_name_of_session_name (directory name : string) :
  contains_char "s" directory = false →
  str_contains "sessions_" name = false →
  str_replace "sessions_" "session_count_" (directory +:+ "sessions_" +:+ name) =
  directory +:+ "session_count_" +:+ name.
Proof.
  intros Hdir Hname.
  rewrite (replace_prefix "s" "essions_") by done.
  by rewrite (replace_at_occurrence "s" "essions_"), replace_no_occurrence.
Qed.

Lemma output_name_of_session_name_witness :
  contains_char "s" "data/" = false ∧
  str_contains "sessions_" "20230101.csv" = false ∧
  str_replace "sessions_" "session_count_" ("data/" +:+ "sessions_" +:+ "20230101.csv") =
  "data/" +:+ "session_count_" +:+ "20230101.csv".
Proof.
  assert (contains_char "s" "data/" = false) as Hdir by reflexivity.
  assert (str_contains "sessions_" "20230101.csv" = false) as Hname by reflexivity.
  split; [exact Hdir|]. split; [exact Hname|].
  exact (output_name_of_session_name "data/" "20230101.csv" Hdir Hname).
Defined.
